(** * Incident lifecycle of the campus-safety dashboard (app.py)

    A shallow embedding of the incident store, the incident factory, the
    alert dispatcher, the live-stream detector and the operator callbacks
    of [app.py], with the properties of the incident lifecycle proved on
    it.

    Modelling conventions.
    - An incident is the Python dict the code builds: a finite map from
      string keys to Python values.  A subscript on a missing key raises
      [KeyError], an operation on a value of the wrong type raises
      [TypeError] or [AttributeError].
    - [st.session_state] is a record of the five keys that
      [initialize_state] defines.
    - [datetime.now ()], [uuid4 ()], [random.randint] and the outcome of
      the simulated send are inputs of the functions that use them.
    - The Streamlit calls a function makes ([st.success], [st.error],
      [st.toast]) are returned as a list, f-strings kept as fragments.
      They return normally, except the [st.success] of
      [send_alert_email], whose failure the code handles.
    - [st.rerun ()] ends a script run; a function of the model is one
      run of the Python function up to that point.
    - Camera capture, image decoding and drawing are left out; an
      uploaded image is taken to decode. *)

From stdpp Require Import gmap strings list fin_maps pretty sorting.

Local Open Scope string_scope.
Local Open Scope list_scope.
Local Open Scope Z_scope.

(** ** Python values *)

(** A naive [datetime]: its fields, compared lexicographically. *)
Record datetime := mk_datetime {
  year : Z; month : Z; day : Z;
  hour : Z; minute : Z; second : Z; microsecond : Z
}.

(** An entry of a notification log: [{'time': ..., 'recipient': ...}]. *)
Record log_entry := mk_entry { time : string; recipient : string }.

Inductive value :=
  | VStr (s : string)
  | VInt (n : Z)
  | VTime (t : datetime)
  | VLog (l : list log_entry).

(** The exceptions the modelled code can raise; all are subclasses of
    Python's [Exception]. *)
Inductive exn :=
  | KeyError (k : string)
  | TypeError
  | AttributeError
  | Exception (msg : string).

(** Outcome of a Python call: a value, or a raised exception.  A raised
    exception ends the run; what the call had changed before raising is
    not kept. *)
Inductive result (A : Type) :=
  | Ok (a : A)
  | Raise (e : exn).
Arguments Ok {A} a.
Arguments Raise {A} e.

Global Instance result_ret : MRet result := λ A a, Ok a.
Global Instance result_bind : MBind result := λ A B f m,
  match m with
  | Ok a => f a
  | Raise e => Raise e
  end.

Global Instance datetime_eq_dec : EqDecision datetime.
Proof. solve_decision. Defined.
Global Instance log_entry_eq_dec : EqDecision log_entry.
Proof. solve_decision. Defined.
Global Instance value_eq_dec : EqDecision value.
Proof. solve_decision. Defined.

(** An incident is a dict. *)
Abbreviation Incident := (gmap string value).

(** [d[k]] *)
Definition getitem (d : Incident) (k : string) : result value :=
  match d !! k with
  | Some v => Ok v
  | None => Raise (KeyError k)
  end.

(** ** Time formatting *)

(** [%H], [%M], [%S]: two digits, zero padded. *)
Definition pad2 (n : Z) : string :=
  if decide (n < 10) then "0" +:+ pretty n else pretty n.

(** [t.strftime('%H:%M:%S')] *)
Definition strftime_HMS (t : datetime) : string :=
  pad2 (hour t) +:+ ":" +:+ pad2 (minute t) +:+ ":" +:+ pad2 (second t).

(** ** Incident factory *)

(** [generate_incident(incident_type, location, score)]; [uuid] is
    [str(uuid4())] and [now] is [datetime.now()]. *)
Definition generate_incident (incident_type location : string) (score : Z)
    (uuid : string) (now : datetime) : Incident :=
  <[ "id" := VStr (String.substring 0 8 uuid) ]> (
  <[ "type" := VStr incident_type ]> (
  <[ "location" := VStr location ]> (
  <[ "status" := VStr "New" ]> (
  <[ "timestamp" := VTime now ]> (
  <[ "deescalation_score" := VInt score ]> (
  <[ "notifications_sent" := VInt 0 ]> (
  <[ "wellness_required" := VInt 2 ]> (
  <[ "description" := VStr ("Deep Learning Model detected **" +:+ incident_type
                            +:+ "** at " +:+ location +:+ " with "
                            +:+ pretty score +:+ "% confidence.") ]> (
  <[ "notification_log" := VLog [] ]> ∅))))))))).

(** ** Streamlit output *)

(** An f-string: literal text and the values put in its holes. *)
Inductive frag :=
  | Lit (s : string)
  | Val (v : value)
  | Err (e : exn).

Inductive st_call :=
  | st_success (msg : list frag)
  | st_error (msg : list frag)
  | st_toast (msg : list frag)
  | st_warning (msg : list frag)
  | st_image.

(** ** Notification dispatcher *)

(** [send_alert_email(incident_details)].  [fault] is what [st.success]
    raises, if anything; [now] is the clock read of the log entry.  The
    result is the dict as the call leaves it. *)
Definition send_alert_email (fault : option exn) (now : datetime)
    (incident_details : Incident) : result (Incident * list st_call) :=
  let RECIPIENT_EMAIL := "security@university.edu" in
  let try : result (list st_call) :=
    i ← getitem incident_details "id";
    match fault with
    | None => Ok [st_success [Lit "EMAIL ALERT SENT successfully to ";
                              Lit RECIPIENT_EMAIL; Lit " for Incident ";
                              Val i; Lit "!"]]
    | Some e => Raise e
    end in
  let out :=
    match try with
    | Ok out => out
    | Raise e =>
        [st_error [Lit "Simulated email failure: Could not connect to SMTP server. Error: ";
                   Err e]]
    end in
  log ← getitem incident_details "notification_log";
  match log with
  | VLog l =>
      Ok (<[ "notification_log" :=
               VLog (l ++ [mk_entry (strftime_HMS now) "Email Alert System"]) ]>
            incident_details, out)
  | _ => Raise AttributeError
  end.

(** ** Session state *)

Record risk_zone := mk_zone {
  zone_location : string; zone_score : Z; zone_trend : string
}.

(** [st.session_state], with the keys [initialize_state] defines.
    [active_incident_id] is [None] or whatever id was last stored. *)
Record session_state := mk_session {
  incidents : list Incident;
  active_incident_id : option value;
  risk_zones : list risk_zone;
  violation_detected : bool;
  email_sent_for_last_detection : bool
}.

(** [initialize_state()] on a session that has none of the keys. *)
Definition initialize_state : session_state :=
  {| incidents := [];
     active_incident_id := None;
     risk_zones := [ mk_zone "Cafeteria Exit" 92 "up";
                     mk_zone "Back Parking Lot" 85 "up";
                     mk_zone "4th Floor Hallway" 65 "down" ];
     violation_detected := false;
     email_sent_for_last_detection := false |}.

Definition set_incidents (l : list Incident) (ss : session_state) :=
  {| incidents := l;
     active_incident_id := active_incident_id ss;
     risk_zones := risk_zones ss;
     violation_detected := violation_detected ss;
     email_sent_for_last_detection := email_sent_for_last_detection ss |}.

Definition set_active_incident_id (a : option value) (ss : session_state) :=
  {| incidents := incidents ss;
     active_incident_id := a;
     risk_zones := risk_zones ss;
     violation_detected := violation_detected ss;
     email_sent_for_last_detection := email_sent_for_last_detection ss |}.

Definition set_violation_detected (b : bool) (ss : session_state) :=
  {| incidents := incidents ss;
     active_incident_id := active_incident_id ss;
     risk_zones := risk_zones ss;
     violation_detected := b;
     email_sent_for_last_detection := email_sent_for_last_detection ss |}.

Definition set_email_sent_for_last_detection (b : bool) (ss : session_state) :=
  {| incidents := incidents ss;
     active_incident_id := active_incident_id ss;
     risk_zones := risk_zones ss;
     violation_detected := violation_detected ss;
     email_sent_for_last_detection := b |}.

(** ** Live-stream detector *)

Record RealTimeDetector := mk_detector {
  violence_score : Z;
  frame_counter : Z;
  detection_triggered : bool
}.

(** [RealTimeDetector.__init__] *)
Definition detector_init : RealTimeDetector :=
  {| violence_score := 0; frame_counter := 0; detection_triggered := false |}.

(** What [recv] draws on the frame. *)
Inductive overlay :=
  | ViolenceDetected
  | AlertActive
  | Scanning (score : Z).

(** [RealTimeDetector.recv(frame)] *)
Definition recv (self : RealTimeDetector) (ss : session_state)
    : RealTimeDetector * session_state * overlay :=
  let self :=
    if decide (frame_counter self < 100) then
      {| violence_score := Z.min 100 (frame_counter self);
         frame_counter := frame_counter self + 1;
         detection_triggered := detection_triggered self |}
    else self in
  if decide (violence_score self >= 90 ∧ detection_triggered self = false) then
    let ss :=
      if negb (violation_detected ss) then set_violation_detected true ss
      else ss in
    ({| violence_score := violence_score self;
        frame_counter := frame_counter self;
        detection_triggered := true |}, ss, ViolenceDetected)
  else if detection_triggered self then (self, ss, AlertActive)
  else (self, ss, Scanning (violence_score self)).

(** ** Operator callbacks *)

(** The loop of both callbacks:
    [for incident in incidents: if incident['id'] == incident_id: body; break].
    The body replaces the first matching dict and may report something. *)
Fixpoint for_first_match {A} (incident_id : value)
    (body : Incident → result (Incident * A)) (l : list Incident)
    : result (list Incident * option A) :=
  match l with
  | [] => Ok ([], None)
  | incident :: rest =>
      i ← getitem incident "id";
      if decide (i = incident_id) then
        '(incident', a) ← body incident;
        Ok (incident' :: rest, Some a)
      else
        '(rest', a) ← for_first_match incident_id body rest;
        Ok (incident :: rest', a)
  end.

(** [handle_update(incident_id, key, value)], up to its [st.rerun()]. *)
Definition handle_update (incident_id : value) (key : string) (v : value)
    (ss : session_state) : result session_state :=
  '(l, _) ← for_first_match incident_id
               (λ incident, Ok (<[ key := v ]> incident, ())) (incidents ss);
  let ss := set_incidents l ss in
  let ss := set_active_incident_id None ss in
  let ss := set_active_incident_id (Some incident_id) ss in
  Ok ss.

(** The body of the loop of [send_notification_action]. *)
Definition notify_body (incident_id : value) (now : datetime)
    (incident : Incident) : result (Incident * st_call) :=
  n ← getitem incident "notifications_sent";
  match n with
  | VInt n =>
      let incident := <[ "notifications_sent" := VInt (n + 1) ]> incident in
      c ← getitem incident "notifications_sent";
      let recipient :=
        if decide (c = VInt 1) then "Admin/Security" else "Parents/Counselors" in
      log ← getitem incident "notification_log";
      match log with
      | VLog l =>
          Ok (<[ "notification_log" :=
                   VLog (l ++ [mk_entry (strftime_HMS now) recipient]) ]> incident,
              st_toast [Lit "Notification sent to "; Lit recipient;
                        Lit " for Incident "; Val incident_id; Lit "!"])
      | _ => Raise AttributeError
      end
  | _ => Raise TypeError
  end.

(** [send_notification_action(incident_id)], up to its [st.rerun()]. *)
Definition send_notification_action (incident_id : value) (now : datetime)
    (ss : session_state) : result (session_state * list st_call) :=
  '(l, toast) ← for_first_match incident_id (notify_body incident_id now)
                   (incidents ss);
  Ok (set_incidents l ss, option_list toast).

(** ** Incident list panel *)

(** [<] on naive datetimes: lexicographic on the fields. *)
Definition datetime_fields (t : datetime) : list Z :=
  [year t; month t; day t; hour t; minute t; second t; microsecond t].

Fixpoint lex_lt (a b : list Z) : bool :=
  match a, b with
  | x :: a, y :: b => if decide (x = y) then lex_lt a b else bool_decide (x < y)
  | [], _ :: _ => true
  | _, _ => false
  end.

Definition datetime_lt (t u : datetime) : bool :=
  lex_lt (datetime_fields t) (datetime_fields u).

(** [<] on [str]: by code points, which on UTF-8 text is the order of
    the bytes. *)
Fixpoint str_lt (a b : string) : bool :=
  match a, b with
  | String x a, String y b =>
      if decide (x = y) then str_lt a b
      else bool_decide (Ascii.N_of_ascii x < Ascii.N_of_ascii y)%N
  | EmptyString, String _ _ => true
  | _, _ => false
  end.

(** [<] on two logs, lists of dicts: the first entries that differ are
    compared, and dicts have no order; when one list is the beginning of
    the other, the shorter one is the smaller. *)
Fixpoint log_lt (a b : list log_entry) : result bool :=
  match a, b with
  | x :: a, y :: b => if decide (x = y) then log_lt a b else Raise TypeError
  | [], _ :: _ => Ok true
  | _, [] => Ok false
  end.

(** [v < w]: values of one type are ordered, values of two types are
    not. *)
Definition value_lt (v w : value) : result bool :=
  match v, w with
  | VStr a, VStr b => Ok (str_lt a b)
  | VInt a, VInt b => Ok (bool_decide (a < b))
  | VTime t, VTime u => Ok (datetime_lt t u)
  | VLog a, VLog b => log_lt a b
  | _, _ => Raise TypeError
  end.

(** [key=lambda x: (x['status'] != 'New', x['timestamp'])] *)
Definition sort_key (x : Incident) : result (bool * value) :=
  s ← getitem x "status";
  t ← getitem x "timestamp";
  Ok (bool_decide (s ≠ VStr "New"), t).

(** [<] on the key tuples: the first components that differ are compared
    ([False < True]); of two equal tuples none is below the other. *)
Definition key_lt (k1 k2 : bool * value) : result bool :=
  if decide (k1.1 = k2.1) then
    if decide (k1.2 = k2.2) then Ok false else value_lt k1.2 k2.2
  else Ok (negb k1.1 && k2.1).

(** [sorted(..., reverse=True)] on decorated items: descending by key,
    items of equal key in their original order.  A comparison of two
    keys that have no order raises [TypeError], and the sort with it.
    Python's sort compares the keys in another order than this insertion
    sort does, but the two return in the same cases, those in which
    every two keys of the list can be compared (lemmas
    [sort_desc_comparable] and [sort_desc_returns]): a sort that returns
    has compared every item with its neighbours in the result, and keys
    lined up so that all neighbours can be compared can all be compared
    with each other (lemma [neighbours_comparable]). *)
Fixpoint insert_desc {A} (kx : bool * value * A)
    (l : list (bool * value * A)) : result (list (bool * value * A)) :=
  match l with
  | [] => Ok [kx]
  | ky :: r =>
      below ← key_lt kx.1 ky.1;
      if below : bool then r ← insert_desc kx r; Ok (ky :: r) else Ok (kx :: l)
  end.

Fixpoint sort_desc {A} (l : list (bool * value * A))
    : result (list (bool * value * A)) :=
  match l with
  | [] => Ok []
  | kx :: r => r ← sort_desc r; insert_desc kx r
  end.

(** [sorted(st.session_state.incidents, key=..., reverse=True)]: the keys
    of all incidents are computed first, then the sort compares them. *)
Definition sorted_incidents (l : list Incident) : result (list Incident) :=
  keyed ← mapM (λ x, k ← sort_key x; Ok (k, x)) l;
  keyed ← sort_desc keyed;
  Ok (snd <$> (keyed : list (bool * value * Incident))).

(** [status_color.get(incident["status"], ...)]: the lookup hashes the
    status, and a list cannot be hashed. *)
Definition status_color_get (status : value) : result unit :=
  match status with
  | VLog _ => Raise TypeError
  | _ => Ok ()
  end.

(** The loop over the cards; [click] is the position of the card whose
    button was pressed in this run, if any.  A card reads the type, the
    location and the status for its label, the status again for its
    colour, and the id for the key of its button. *)
Fixpoint render_cards (click : option nat) (l : list Incident)
    (ss : session_state) : result (session_state * bool) :=
  match l with
  | [] => Ok (ss, false)
  | incident :: rest =>
      _ ← getitem incident "type";
      _ ← getitem incident "location";
      _ ← getitem incident "status";
      status ← getitem incident "status";
      _ ← status_color_get status;
      i ← getitem incident "id";
      match click with
      | Some O => Ok (set_active_incident_id (Some i) ss, true)
      | _ => render_cards (pred <$> click) rest ss
      end
  end.

(** [incident_list_panel()]; the flag tells whether [st.rerun()] ended
    the run. *)
Definition incident_list_panel (click : option nat) (ss : session_state)
    : result (session_state * bool) :=
  sorted_incidents ← sorted_incidents (incidents ss);
  render_cards click sorted_incidents ss.

(** ** Detection paths *)

(** The lines every detection path runs on its new incident:
    [incidents.append(new_incident)],
    [active_incident_id = new_incident['id']],
    [send_alert_email(new_incident)].
    [new_incident] is the dict that was appended, so the call changes the
    dict at that position of the store. *)
Definition log_and_alert (fault : option exn) (now : datetime)
    (new_incident : Incident) (ss : session_state)
    : result (session_state * list st_call) :=
  let at_ := length (incidents ss) in
  let ss := set_incidents (incidents ss ++ [new_incident]) ss in
  i ← getitem new_incident "id";
  let ss := set_active_incident_id (Some i) ss in
  '(new_incident, out) ← send_alert_email fault now new_incident;
  Ok (set_incidents (<[ at_ := new_incident ]> (incidents ss)) ss, out).

(** [random.randint(a, b)]: an integer in [a..b] taken from the state
    [rnd] of the generator. *)
Definition randint (a b rnd : Z) : Z := a + rnd `mod` (b - a + 1).

(** What a script run reads besides the session: the generator, two
    clock reads (creation, log entry), the uuid, the outcome of the
    simulated send. *)
Record oracle := mk_oracle {
  rnd : Z;
  uuid : string;
  now : datetime;
  now_log : datetime;
  fault : option exn
}.

(** What [process_uploaded_image] does once the score is drawn: the
    lines of the function after the call of [random.randint], as a
    function of the value [simulated_violence_score] that call returned. *)
Definition image_analysis (simulated_violence_score : Z) (name : string)
    (log_image_incident : bool) (o : oracle) (ss : session_state)
    : result (session_state * list st_call * bool) :=
  if decide (simulated_violence_score >= 80) then
    let out := [st_error [Lit "🚨 **VIOLATION DETECTED!** Confidence: ";
                          Val (VInt simulated_violence_score); Lit "%"]] in
    if log_image_incident then
      let new_incident :=
        generate_incident "Image Upload Violence" ("File: " +:+ name)
          simulated_violence_score (uuid o) (now o) in
      '(ss, out') ← log_and_alert (fault o) (now_log o) new_incident ss;
      Ok (ss, out ++ out' ++ [st_toast [Lit "File incident logged and alert sent!"]],
          true)
    else Ok (ss, out ++ [st_image], false)
  else
    Ok (ss, [st_success [Lit "✅ No Violation Detected. Confidence: ";
                         Val (VInt simulated_violence_score); Lit "%"];
             st_image], false).

(** [process_uploaded_image(uploaded_file)]; [log_image_incident] is the
    state of the button of that key. *)
Definition process_uploaded_image (name : string) (log_image_incident : bool)
    (o : oracle) (ss : session_state)
    : result (session_state * list st_call * bool) :=
  let simulated_violence_score := randint 70 100 (rnd o) in
  image_analysis simulated_violence_score name log_image_incident o ss.

(** What [process_uploaded_video] does once the button is pressed and the
    score is drawn, as a function of the value [simulated_violence_score]
    that [random.randint] returned. *)
Definition video_analysis (simulated_violence_score : Z) (name : string)
    (o : oracle) (ss : session_state)
    : result (session_state * list st_call * bool) :=
  if decide (simulated_violence_score >= 85) then
    let out := [st_error [Lit "🚨 **VIOLATION DETECTED in Video!** Confidence: ";
                          Val (VInt simulated_violence_score); Lit "%"]] in
    let new_incident :=
      generate_incident "Video Footage Violence" ("Video: " +:+ name)
        simulated_violence_score (uuid o) (now o) in
    '(ss, out') ← log_and_alert (fault o) (now_log o) new_incident ss;
    Ok (ss, out ++ out' ++ [st_toast [Lit "Video incident logged and alert sent!"]],
        true)
  else
    Ok (ss, [st_success [Lit "✅ No Significant Violation Detected in video. Confidence: ";
                         Val (VInt simulated_violence_score); Lit "%"]], false).

(** [process_uploaded_video(uploaded_file)]; [run_video_analysis] is the
    state of the button of that key. *)
Definition process_uploaded_video (name : string) (run_video_analysis : bool)
    (o : oracle) (ss : session_state)
    : result (session_state * list st_call * bool) :=
  if run_video_analysis then
    let simulated_violence_score := randint 85 99 (rnd o) in
    video_analysis simulated_violence_score name o ss
  else Ok (ss, [], false).

(** An uploaded file: its name, its MIME type and the state of the
    button shown below it. *)
Record uploaded := mk_uploaded {
  file_name : string;
  file_type : string;
  button : bool
}.

(** [s.split('/')[0]] *)
Fixpoint split_slash_0 (s : string) : string :=
  match s with
  | EmptyString => ""
  | String c r => if decide (String c "" = "/") then "" else String c (split_slash_0 r)
  end.

(** [file_analysis_panel()] *)
Definition file_analysis_panel (uploaded_file : option uploaded) (o : oracle)
    (ss : session_state) : result (session_state * list st_call * bool) :=
  match uploaded_file with
  | Some f =>
      let file_type := split_slash_0 (file_type f) in
      if decide (file_type = "image") then
        process_uploaded_image (file_name f) (button f) o ss
      else if decide (file_type = "video") then
        process_uploaded_video (file_name f) (button f) o ss
      else Ok (ss, [st_warning [Lit "Unsupported file type detected."]], false)
  | None => Ok (ss, [], false)
  end.

(** ** Main script *)

(** The live check at the top of [main()]. *)
Definition live_check (o : oracle) (ss : session_state)
    : result (session_state * list st_call * bool) :=
  if violation_detected ss && negb (email_sent_for_last_detection ss) then
    let new_incident :=
      generate_incident "Confirmed Live Violence" "Live Camera Feed" 95
        (uuid o) (now o) in
    '(ss, out) ← log_and_alert (fault o) (now_log o) new_incident ss;
    let ss := set_email_sent_for_last_detection true ss in
    let ss := set_violation_detected false ss in
    Ok (ss, out ++ [st_toast [Lit "🔥 Real-Time VIOLENCE ALERT! Incident Logged."]],
        true)
  else Ok (ss, [], false).

(** One run of [main()], up to its [st.rerun()]; [click] and
    [uploaded_file] are the widget states of this run.  The session is
    initialised: [initialize_state()] finds its keys and changes
    nothing. *)
Definition main (click : option nat) (uploaded_file : option uploaded)
    (o : oracle) (ss : session_state) : result (session_state * list st_call) :=
  '(ss, out, rerun) ← live_check o ss;
  if (rerun : bool) then Ok (ss, out) else
  '(ss, rerun) ← incident_list_panel click ss;
  if (rerun : bool) then Ok (ss, out) else
  '(ss, out', _) ← file_analysis_panel uploaded_file o ss;
  Ok (ss, out ++ out').

(** ** The dashboard as a transition system *)

(** The session and the detector of the running camera stream. *)
Record world := mk_world {
  session : session_state;
  video_processor : RealTimeDetector
}.

Definition world_init : world :=
  {| session := initialize_state; video_processor := detector_init |}.

(** What can happen: the camera stream starts (the factory builds a new
    detector), the stream delivers a frame, the script runs, or one of
    the two callbacks of the detail panel is called. *)
Inductive event :=
  | Stream
  | Frame
  | Script (click : option nat) (uploaded_file : option uploaded) (o : oracle)
  | SetStatus (incident_id : value) (status : string)
  | Notify (incident_id : value) (now : datetime).

Definition step (e : event) (w : world) : result world :=
  match e with
  | Stream => Ok {| session := session w; video_processor := detector_init |}
  | Frame =>
      let '(d, ss, _) := recv (video_processor w) (session w) in
      Ok {| session := ss; video_processor := d |}
  | Script click uploaded_file o =>
      '(ss, _) ← main click uploaded_file o (session w);
      Ok {| session := ss; video_processor := video_processor w |}
  | SetStatus incident_id status =>
      ss ← handle_update incident_id "status" (VStr status) (session w);
      Ok {| session := ss; video_processor := video_processor w |}
  | Notify incident_id now =>
      '(ss, _) ← send_notification_action incident_id now (session w);
      Ok {| session := ss; video_processor := video_processor w |}
  end.

Fixpoint run (tr : list event) (w : world) : result world :=
  match tr with
  | [] => Ok w
  | e :: tr => w ← step e w; run tr w
  end.

(** A live poll: the detector sees a frame, then the script runs with no
    operator input. *)
Definition poll (o : oracle) : list event := [Frame; Script None None o].

Definition polls (os : list oracle) : list event := concat (poll <$> os).

(** ** Vocabulary of the properties *)

(** Every dict of the store has an id, and none has [incident_id]. *)
Definition id_absent (incident_id : value) (l : list Incident) : Prop :=
  Forall (λ inc : Incident, ∃ i, inc !! "id" = Some i ∧ i ≠ incident_id) l.

(** The entry [send_alert_email] appends. *)
Definition email_entry (now : datetime) : log_entry :=
  mk_entry (strftime_HMS now) "Email Alert System".

(** The recipients of [n] manual notifications, in order. *)
Definition manual_recipients (n : nat) : list string :=
  match n with
  | O => []
  | S n => "Admin/Security" :: replicate n "Parents/Counselors"
  end.

(** [notifications_sent == len(notification_log)] *)
Definition counter_consistent (inc : Incident) : Prop :=
  ∃ n log, inc !! "notifications_sent" = Some (VInt n)
    ∧ inc !! "notification_log" = Some (VLog log)
    ∧ n = Z.of_nat (length log).

(** The first entry of the log goes to Admin/Security, the later ones to
    Parents/Counselors. *)
Definition first_recipient_rule (inc : Incident) : Prop :=
  ∀ log, inc !! "notification_log" = Some (VLog log) →
    recipient <$> log = manual_recipients (length log).

(** What holds of every incident the dashboard has logged: the keys the
    panels read are there, and the log is the alert of the creation
    followed by the manual notifications the counter counts. *)
Record tracked (inc : Incident) : Prop := mk_tracked {
  tracked_id : is_Some (inc !! "id");
  tracked_type : is_Some (inc !! "type");
  tracked_location : is_Some (inc !! "location");
  tracked_status : ∃ s, inc !! "status" = Some (VStr s);
  tracked_timestamp : ∃ t, inc !! "timestamp" = Some (VTime t);
  tracked_log : ∃ n log,
    inc !! "notifications_sent" = Some (VInt n) ∧ 0 ≤ n
    ∧ inc !! "notification_log" = Some (VLog log)
    ∧ recipient <$> log = "Email Alert System" :: manual_recipients (Z.to_nat n)
}.

Definition is_live (inc : Incident) : bool :=
  bool_decide (inc !! "type" = Some (VStr "Confirmed Live Violence")).

Definition live_incidents (l : list Incident) : list Incident :=
  List.filter is_live l.

(** The invariant of the session: every incident is tracked, and the
    store holds a live incident exactly when the alert of the live
    detection has been sent. *)
Record session_inv (ss : session_state) : Prop := mk_session_inv {
  inv_tracked : Forall tracked (incidents ss);
  inv_live :
    length (live_incidents (incidents ss))
    = if email_sent_for_last_detection ss then 1%nat else 0%nat
}.

(** What [send_alert_email] reports: the success, or the exception the
    [try] block caught. *)
Definition alert_report (fault : option exn) (inc : Incident) : list st_call :=
  match inc !! "id", fault with
  | Some i, None =>
      [st_success [Lit "EMAIL ALERT SENT successfully to ";
                   Lit "security@university.edu"; Lit " for Incident ";
                   Val i; Lit "!"]]
  | Some _, Some e =>
      [st_error [Lit "Simulated email failure: Could not connect to SMTP server. Error: ";
                 Err e]]
  | None, _ =>
      [st_error [Lit "Simulated email failure: Could not connect to SMTP server. Error: ";
                 Err (KeyError "id")]]
  end.

(** The incident of the live path once [log_and_alert] has run on it. *)
Definition live_incident (o : oracle) : Incident :=
  <[ "notification_log" := VLog [email_entry (now_log o)] ]>
    (generate_incident "Confirmed Live Violence" "Live Camera Feed" 95
       (uuid o) (now o)).

(** The world after the polls of [os], starting from [world_init]: the
    91st poll is the one whose frame takes the score to 90. *)
Definition after_polls (os : list oracle) : world :=
  let n := Z.of_nat (length os) in
  {| session :=
       {| incidents :=
            match os !! 90%nat with Some o => [live_incident o] | None => [] end;
          active_incident_id :=
            match os !! 90%nat with
            | Some o => Some (VStr (String.substring 0 8 (uuid o)))
            | None => None
            end;
          risk_zones := risk_zones initialize_state;
          violation_detected := false;
          email_sent_for_last_detection := bool_decide (91 ≤ n) |};
     video_processor :=
       {| violence_score := Z.max 0 (Z.min n 100 - 1);
          frame_counter := Z.min n 100;
          detection_triggered := bool_decide (91 ≤ n) |} |}.

(** The order of two incidents in the list panel: their keys exist and
    the key of the first is not below the key of the second. *)
Definition shown_before (x y : Incident) : Prop :=
  ∃ kx ky, sort_key x = Ok kx ∧ sort_key y = Ok ky ∧ key_lt kx ky = Ok false.

(** Two keys that [<] can compare. *)
Definition comparable (k1 k2 : bool * value) : Prop :=
  ∃ b, key_lt k1 k2 = Ok b.

(** Whether an analysis reported a violation: its first call is the
    [st.error] of the detection branch. *)
Definition violation_reported (out : list st_call) : bool :=
  match out with
  | st_error _ :: _ => true
  | _ => false
  end.

(** The scenario of the incident list: A (New, 10:00), B (Resolved,
    11:00), C (New, 09:00). *)
Definition at_time (h : Z) : datetime := mk_datetime 2025 3 14 h 0 0 0.

Definition scenario_A : Incident :=
  generate_incident "Image Upload Violence" "File: a.jpg" 91 "aaaaaaaa-0000" (at_time 10).
Definition scenario_B : Incident :=
  <[ "status" := VStr "Resolved" ]>
    (generate_incident "Video Footage Violence" "Video: b.mp4" 90 "bbbbbbbb-0000" (at_time 11)).
Definition scenario_C : Incident :=
  generate_incident "Image Upload Violence" "File: c.jpg" 85 "cccccccc-0000" (at_time 9).

(** An oracle for the examples: [randint 70 100] draws 85 from it. *)
Definition oracle_0 : oracle :=
  mk_oracle 15 "0123abcd-4567-89ab-cdef-0123456789ab" (at_time 10) (at_time 10) None.

(** ** Session initialisation *)

(** [st.session_state] before [initialize_state()] has run on it: any of
    the five keys may be missing. *)
Record raw_session := mk_raw {
  raw_incidents : option (list Incident);
  raw_active_incident_id : option (option value);
  raw_risk_zones : option (list risk_zone);
  raw_violation_detected : option bool;
  raw_email_sent_for_last_detection : option bool
}.

(** [initialize_state()]: each key that is missing gets its default. *)
Definition initialize_state_on (rs : raw_session) : raw_session :=
  {| raw_incidents :=
       match raw_incidents rs with None => Some [] | Some l => Some l end;
     raw_active_incident_id :=
       match raw_active_incident_id rs with None => Some None | Some a => Some a end;
     raw_risk_zones :=
       match raw_risk_zones rs with
       | None => Some [ mk_zone "Cafeteria Exit" 92 "up";
                        mk_zone "Back Parking Lot" 85 "up";
                        mk_zone "4th Floor Hallway" 65 "down" ]
       | Some z => Some z
       end;
     raw_violation_detected :=
       match raw_violation_detected rs with None => Some false | Some b => Some b end;
     raw_email_sent_for_last_detection :=
       match raw_email_sent_for_last_detection rs with
       | None => Some false
       | Some b => Some b
       end |}.

(** A session that has all its keys. *)
Definition raw_of (ss : session_state) : raw_session :=
  {| raw_incidents := Some (incidents ss);
     raw_active_incident_id := Some (active_incident_id ss);
     raw_risk_zones := Some (risk_zones ss);
     raw_violation_detected := Some (violation_detected ss);
     raw_email_sent_for_last_detection := Some (email_sent_for_last_detection ss) |}.

(** ** Incident detail panel *)

(** The exceptions of the detail panel: those of the rest of the code,
    [ValueError] (of [list.index]) and [IndexError] (of [list[-1]]). *)
Inductive panel_exn :=
  | ValueError
  | IndexError
  | Other (e : exn).

Inductive shown (A : Type) :=
  | Shown (a : A)
  | Failed (e : panel_exn).
Arguments Shown {A} a.
Arguments Failed {A} e.

Global Instance shown_ret : MRet shown := λ A a, Shown a.
Global Instance shown_bind : MBind shown := λ A B f m,
  match m with
  | Shown a => f a
  | Failed e => Failed e
  end.

Definition lift {A} (r : result A) : shown A :=
  match r with
  | Ok a => Shown a
  | Raise e => Failed (Other e)
  end.

(** Python's truth value of a value. *)
Definition truthy (v : value) : bool :=
  match v with
  | VStr s => bool_decide (s ≠ "")
  | VInt n => bool_decide (n ≠ 0)
  | VTime _ => true
  | VLog l => bool_decide (l ≠ [])
  end.

(** [next((i for i in incidents if i['id'] == incident_id), None)] *)
Fixpoint next_incident (incident_id : value) (l : list Incident)
    : result (option Incident) :=
  match l with
  | [] => Ok None
  | i :: rest =>
      v ← getitem i "id";
      if decide (v = incident_id) then Ok (Some i)
      else next_incident incident_id rest
  end.

Definition status_options : list string :=
  ["New"; "Investigating"; "Resolved"; "Closed"].

(** [options.index(v)] *)
Fixpoint index (v : value) (options : list string) : shown nat :=
  match options with
  | [] => Failed ValueError
  | s :: options =>
      if decide (v = VStr s) then Shown O
      else i ← index v options; Shown (S i)
  end.

(** [v > 0] *)
Definition gt_0 (v : value) : result bool :=
  match v with
  | VInt n => Ok (bool_decide (n > 0))
  | _ => Raise TypeError
  end.

(** [t.strftime('%H:%M:%S')] on a value. *)
Definition strftime_value (v : value) : result string :=
  match v with
  | VTime t => Ok (strftime_HMS t)
  | _ => Raise AttributeError
  end.

(** [log[-1]], to be subscripted with a key: the last entry of a list.
    An empty list or string raises [IndexError]; the last character of a
    string, an int and a datetime cannot be subscripted with a key. *)
Definition last_entry (log : value) : shown log_entry :=
  match log with
  | VLog l =>
      match last l with
      | Some e => Shown e
      | None => Failed IndexError
      end
  | VStr "" => Failed IndexError
  | _ => Failed (Other TypeError)
  end.

(** The lines of the log:
    [[f"**[{entry['time']}]** - Sent to {entry['recipient']}" for entry in log]] *)
Definition log_lines (log : value) : result (list string) :=
  match log with
  | VLog l =>
      Ok ((λ entry, "**[" +:+ time entry +:+ "]** - Sent to " +:+ recipient entry)
            <$> l)
  | VStr "" => Ok []
  | _ => Raise TypeError
  end.

Definition newline : string := String (Ascii.ascii_of_nat 10) "".

(** What the detail panel shows of an incident. *)
Record detail_view := mk_view {
  view_subheader : list frag;
  view_location : value;
  view_time_detected : string;
  view_confidence : list frag;
  view_description : list frag;
  view_status_index : nat;
  view_alert_button : list frag;
  view_last_sent : option (list frag);
  view_wellness : list frag;
  view_wellness_button : bool;
  view_log : string
}.

(** The three ways the panel ends: nothing is selected, the selected
    incident is not in the store, or the incident is shown. *)
Inductive detail_outcome :=
  | NoSelection
  | NotFound
  | Details (view : detail_view).

(** The part of [incident_detail_panel()] that shows the incident. *)
Definition show_incident (incident : Incident) : shown detail_view :=
  i ← lift (getitem incident "id");
  ty ← lift (getitem incident "type");
  location ← lift (getitem incident "location");
  timestamp ← lift (getitem incident "timestamp");
  time_detected ← lift (strftime_value timestamp);
  score ← lift (getitem incident "deescalation_score");
  description ← lift (getitem incident "description");
  status ← lift (getitem incident "status");
  current_index ← index status status_options;
  sent ← lift (getitem incident "notifications_sent");
  sent' ← lift (getitem incident "notifications_sent");
  some_sent ← lift (gt_0 sent');
  last_sent ←
    (if (some_sent : bool) then
       log ← lift (getitem incident "notification_log");
       e ← last_entry log;
       Shown (Some [Lit "Last sent to "; Lit (recipient e); Lit " at ";
                    Lit (time e)])
     else Shown None);
  wellness ← lift (getitem incident "wellness_required");
  wellness' ← lift (getitem incident "wellness_required");
  some_wellness ← lift (gt_0 wellness');
  log ← lift (getitem incident "notification_log");
  lines ← lift (log_lines log);
  let log_text := String.concat newline lines in
  Shown {| view_subheader := [Lit "Incident "; Val i; Lit " | "; Val ty];
           view_location := location;
           view_time_detected := time_detected;
           view_confidence := [Val score; Lit "%"];
           view_description := [Lit "**AI Description:** *"; Val description; Lit "*"];
           view_status_index := current_index;
           view_alert_button :=
             [Lit "🔔 Send Tactical Alert ("; Val sent; Lit " Sent)"];
           view_last_sent := last_sent;
           view_wellness := [Lit "**Wellness Checks Required:** "; Val wellness];
           view_wellness_button := some_wellness;
           view_log :=
             if decide (log_text = "") then "*No alerts logged yet.*"
             else log_text |}.

(** [incident_detail_panel()], up to its [st.rerun()] when the incident
    is not found. *)
Definition incident_detail_panel (ss : session_state)
    : shown (session_state * detail_outcome) :=
  match active_incident_id ss with
  | None => Shown (ss, NoSelection)
  | Some incident_id =>
      if negb (truthy incident_id) then Shown (ss, NoSelection) else
      incident ← lift (next_incident incident_id (incidents ss));
      match incident with
      | None => Shown (set_active_incident_id None ss, NotFound)
      | Some incident =>
          if decide (incident = ∅) then
            Shown (set_active_incident_id None ss, NotFound)
          else
            view ← show_incident incident;
            Shown (ss, Details view)
      end
  end.

(** ** Proactive panel *)

(** [c.upper()] and [c.lower()] on an ASCII character. *)
Definition ascii_upper (c : Ascii.ascii) : Ascii.ascii :=
  let n := Ascii.nat_of_ascii c in
  if decide (97 ≤ n ≤ 122)%nat then Ascii.ascii_of_nat (n - 32) else c.

Definition ascii_lower (c : Ascii.ascii) : Ascii.ascii :=
  let n := Ascii.nat_of_ascii c in
  if decide (65 ≤ n ≤ 90)%nat then Ascii.ascii_of_nat (n + 32) else c.

Fixpoint lower (s : string) : string :=
  match s with
  | EmptyString => EmptyString
  | String c s => String (ascii_lower c) (lower s)
  end.

(** [s.capitalize()] on an ASCII string. *)
Definition capitalize (s : string) : string :=
  match s with
  | EmptyString => EmptyString
  | String c s => String (ascii_upper c) (lower s)
  end.

(** What the proactive panel shows of a zone. *)
Record zone_card := mk_card {
  card_location : string;
  card_metric : list frag;
  card_delta : string;
  card_delta_color : string;
  card_action : string;
  card_style : string
}.

(** The body of the loop of [proactive_panel()]. *)
Definition zone_card_of (zone : risk_zone) : zone_card :=
  let metric_delta_color :=
    if decide (zone_trend zone = "up") then "inverse" else "normal" in
  let action :=
    if decide (zone_score zone > 90) then "Deploy staff immediately"
    else "Increase casual presence" in
  let text_color_style :=
    if decide (zone_score zone > 90) then "color: #DC2626;"
    else "color: #F59E0B;" in
  {| card_location := zone_location zone;
     card_metric := [Val (VInt (zone_score zone)); Lit "%"];
     card_delta := capitalize (zone_trend zone);
     card_delta_color := metric_delta_color;
     card_action := action;
     card_style := text_color_style |}.

(** [proactive_panel()] *)
Definition proactive_panel (ss : session_state) : list zone_card :=
  zone_card_of <$> risk_zones ss.

(** ** Vocabulary of the further properties *)

Global Instance exn_eq_dec : EqDecision exn.
Proof. solve_decision. Defined.
Global Instance result_eq_dec {A} `{EqDecision A} : EqDecision (result A).
Proof. solve_decision. Defined.

(** The detector of a stream that has delivered [n] frames. *)
Definition detector_after (n : nat) : RealTimeDetector :=
  {| violence_score := Z.max 0 (Z.min (Z.of_nat n) 100 - 1);
     frame_counter := Z.min (Z.of_nat n) 100;
     detection_triggered := bool_decide (91 ≤ n)%nat |}.

(** What the frame after [n] frames shows. *)
Definition overlay_after (n : nat) : overlay :=
  if decide (n < 90)%nat then Scanning (Z.of_nat n)
  else if decide (n = 90%nat) then ViolenceDetected
  else AlertActive.

(** Two states of one incident: every key but the status, the counter
    and the log has the same value. *)
Definition same_identity (old new : Incident) : Prop :=
  ∀ k, k ≠ "status" → k ≠ "notifications_sent" → k ≠ "notification_log" →
    new !! k = old !! k.

(** The description [generate_incident] composes. *)
Definition description_of (incident_type location : string) (score : Z) : string :=
  "Deep Learning Model detected **" +:+ incident_type +:+ "** at " +:+ location
  +:+ " with " +:+ pretty score +:+ "% confidence.".

(** The type, location and score the three detection paths pass to
    [generate_incident]. *)
Inductive source_of : string → string → Z → Prop :=
  | live_source :
      source_of "Confirmed Live Violence" "Live Camera Feed" 95
  | image_source name score :
      80 ≤ score ≤ 100 →
      source_of "Image Upload Violence" ("File: " +:+ name) score
  | video_source name score :
      85 ≤ score ≤ 99 →
      source_of "Video Footage Violence" ("Video: " +:+ name) score.

(** An incident as a detection path leaves it in the store. *)
Definition newly_logged (inc : Incident) : Prop :=
  ∃ ty loc score uuid now now',
    inc = <[ "notification_log" := VLog [email_entry now'] ]>
            (generate_incident ty loc score uuid now)
    ∧ source_of ty loc score.

(** What the factory fixes of an incident. *)
Record factory_made (inc : Incident) : Prop := mk_factory_made {
  made_source : ∃ ty loc score,
    inc !! "type" = Some (VStr ty)
    ∧ inc !! "location" = Some (VStr loc)
    ∧ inc !! "deescalation_score" = Some (VInt score)
    ∧ inc !! "description" = Some (VStr (description_of ty loc score))
    ∧ source_of ty loc score;
  made_wellness : inc !! "wellness_required" = Some (VInt 2);
  made_id : ∃ i, inc !! "id" = Some (VStr i) ∧ (String.length i ≤ 8)%nat;
  made_timestamp : ∃ t, inc !! "timestamp" = Some (VTime t)
}.

(** The store [l'] holds the incidents of [l], in their order and with
    their identity, followed by incidents logged since. *)
Definition grown_from (l l' : list Incident) : Prop :=
  ∃ l1 l2, l' = l1 ++ l2
    ∧ Forall2 same_identity l l1 ∧ Forall factory_made l2.

(** ** Detection sessions *)





(** * Properties *)

(** ** Basic facts *)

Lemma bind_Ok {A B} (f : A → result B) (a : A) : (Ok a ≫= f) = f a.
Proof. reflexivity. Qed.

Lemma getitem_Some (d : Incident) k v : d !! k = Some v → getitem d k = Ok v.
Proof. unfold getitem. by intros ->. Qed.

(** Evaluate a subscript whose value a hypothesis gives. *)
Ltac known_item H := rewrite (getitem_Some _ _ _ H), ?bind_Ok.

Lemma for_first_match_absent {A} incident_id
    (body : Incident → result (Incident * A)) l :
  id_absent incident_id l →
  for_first_match incident_id body l = Ok (l, None).
Proof.
  induction 1 as [|inc l (i & Hi & Hne) _ IH]; [done|].
  simpl. known_item Hi. rewrite decide_False by done. by rewrite IH.
Qed.

Lemma for_first_match_first {A} incident_id
    (body : Incident → result (Incident * A)) pre inc post inc' a :
  id_absent incident_id pre →
  inc !! "id" = Some incident_id →
  body inc = Ok (inc', a) →
  for_first_match incident_id body (pre ++ inc :: post)
  = Ok (pre ++ inc' :: post, Some a).
Proof.
  intros Hpre Hid Hbody.
  induction Hpre as [|x pre (i & Hi & Hne) _ IH]; simpl.
  - known_item Hid. rewrite decide_True by done. by rewrite Hbody.
  - known_item Hi. rewrite decide_False by done. by rewrite IH.
Qed.

(** ** The incident factory *)

(** C8. For every type, location and score, [generate_incident] returns
    a dict with status New, zero notifications sent, two wellness checks
    required and an empty notification log; its other fields are fixed by
    the arguments, the clock read and the uuid: the score is stored as
    given, the id is the first eight characters of the uuid, and the
    description is composed from type, location and score.  The dict has
    these ten keys and no other. *)
Theorem generate_incident_fields incident_type location score uuid now :
  let d := generate_incident incident_type location score uuid now in
  d !! "status" = Some (VStr "New")
  ∧ d !! "notifications_sent" = Some (VInt 0)
  ∧ d !! "wellness_required" = Some (VInt 2)
  ∧ d !! "notification_log" = Some (VLog [])
  ∧ d !! "deescalation_score" = Some (VInt score)
  ∧ d !! "description"
    = Some (VStr ("Deep Learning Model detected **" +:+ incident_type
                  +:+ "** at " +:+ location +:+ " with " +:+ pretty score
                  +:+ "% confidence."))
  ∧ d !! "id" = Some (VStr (String.substring 0 8 uuid))
  ∧ d !! "type" = Some (VStr incident_type)
  ∧ d !! "location" = Some (VStr location)
  ∧ d !! "timestamp" = Some (VTime now)
  ∧ dom d = list_to_set
      ["id"; "type"; "location"; "status"; "timestamp"; "deescalation_score";
       "notifications_sent"; "wellness_required"; "description";
       "notification_log"].
Proof.
  repeat split; reflexivity.
Qed.

(** The incident of the live path, as the factory returns it. *)
Example generate_incident_live :
  let d := generate_incident "Confirmed Live Violence" "Live Camera Feed" 95
             (uuid oracle_0) (now oracle_0) in
  d !! "id" = Some (VStr "0123abcd")
  ∧ d !! "description"
    = Some (VStr "Deep Learning Model detected **Confirmed Live Violence** at Live Camera Feed with 95% confidence.").
Proof. split; reflexivity. Qed.

(** ** The notification dispatcher *)

Lemma send_alert_email_appends fault now (inc : Incident) log :
  inc !! "notification_log" = Some (VLog log) →
  send_alert_email fault now inc
  = Ok (<[ "notification_log" := VLog (log ++ [email_entry now]) ]> inc,
        alert_report fault inc).
Proof.
  intros Hlog. unfold send_alert_email, alert_report, getitem.
  rewrite Hlog. destruct (inc !! "id"), fault; reflexivity.
Qed.

(** C6. Called on an incident whose notification log is a list,
    [send_alert_email] returns normally whatever the simulated send did:
    an exception raised by the send (or by reading the id) is caught and
    reported with [st.error], not raised again.  The incident it leaves
    is the one it got with one entry of recipient "Email Alert System"
    appended to the log, in the failure cases as in the success case. *)
Theorem send_alert_email_logs_unconditionally fault now (inc : Incident) log :
  inc !! "notification_log" = Some (VLog log) →
  send_alert_email fault now inc
  = Ok (<[ "notification_log" :=
             VLog (log ++ [mk_entry (strftime_HMS now) "Email Alert System"]) ]> inc,
        alert_report fault inc).
Proof. apply send_alert_email_appends. Qed.

Lemma send_alert_email_logs_unconditionally_witness :
  send_alert_email (Some (Exception "SMTP connect failed")) (at_time 10) scenario_A
  = Ok (<[ "notification_log" :=
             VLog ([] ++ [mk_entry (strftime_HMS (at_time 10)) "Email Alert System"]) ]>
          scenario_A,
        alert_report (Some (Exception "SMTP connect failed")) scenario_A).
Proof.
  apply (send_alert_email_logs_unconditionally _ _ scenario_A []).
  reflexivity.
Defined.

(** ** The operator callbacks on an unknown id *)

(** C5. When no incident of the store has the given id, the status
    update and the notify action both return normally and leave the list
    of incidents, hence every field of every incident, as it was. *)
Theorem unknown_id_leaves_store incident_id key v now ss :
  id_absent incident_id (incidents ss) →
  (∃ ss', handle_update incident_id key v ss = Ok ss'
          ∧ incidents ss' = incidents ss)
  ∧ send_notification_action incident_id now ss = Ok (ss, []).
Proof.
  intros Habs. split.
  - unfold handle_update.
    rewrite (for_first_match_absent _ _ _ Habs), bind_Ok.
    eexists. split; [reflexivity|]. reflexivity.
  - unfold send_notification_action.
    rewrite (for_first_match_absent _ _ _ Habs), bind_Ok.
    by destruct ss.
Qed.

Lemma unknown_id_leaves_store_witness :
  let ss := set_incidents [scenario_A; scenario_B; scenario_C] initialize_state in
  (∃ ss', handle_update (VStr "nonexistent") "status" (VStr "Resolved") ss = Ok ss'
          ∧ incidents ss' = incidents ss)
  ∧ send_notification_action (VStr "nonexistent") (at_time 12) ss = Ok (ss, []).
Proof.
  apply unknown_id_leaves_store.
  repeat constructor; eexists; (split; [reflexivity | discriminate]).
Defined.

(** C9. When no incident of the store has the given id, the status
    update still stores that id as the active incident id: afterwards the
    selection names an incident the store does not hold. *)
Theorem handle_update_unknown_id_selected incident_id key v ss :
  id_absent incident_id (incidents ss) →
  ∃ ss', handle_update incident_id key v ss = Ok ss'
    ∧ active_incident_id ss' = Some incident_id
    ∧ ∀ inc : Incident, inc ∈ incidents ss' → inc !! "id" ≠ Some incident_id.
Proof.
  intros Habs. unfold handle_update.
  rewrite (for_first_match_absent _ _ _ Habs), bind_Ok.
  eexists. split; [reflexivity|]. split; [reflexivity|].
  simpl. intros inc Hin Hid.
  unfold id_absent in Habs. rewrite Forall_forall in Habs.
  destruct (Habs _ Hin) as (i & Hi & Hne). congruence.
Qed.

Lemma handle_update_unknown_id_selected_witness :
  let ss := set_incidents [scenario_A; scenario_B; scenario_C] initialize_state in
  ∃ ss', handle_update (VStr "nonexistent") "status" (VStr "Resolved") ss = Ok ss'
    ∧ active_incident_id ss' = Some (VStr "nonexistent")
    ∧ ∀ inc : Incident, inc ∈ incidents ss' → inc !! "id" ≠ Some (VStr "nonexistent").
Proof.
  apply handle_update_unknown_id_selected.
  repeat constructor; eexists; (split; [reflexivity | discriminate]).
Defined.

(** ** The manual notification *)

Lemma notify_body_ok incident_id now (inc : Incident) n log :
  inc !! "notifications_sent" = Some (VInt n) →
  inc !! "notification_log" = Some (VLog log) →
  let recipient := if decide (n = 0) then "Admin/Security" else "Parents/Counselors" in
  notify_body incident_id now inc
  = Ok (<[ "notification_log" := VLog (log ++ [mk_entry (strftime_HMS now) recipient]) ]>
          (<[ "notifications_sent" := VInt (n + 1) ]> inc),
        st_toast [Lit "Notification sent to "; Lit recipient;
                  Lit " for Incident "; Val incident_id; Lit "!"]).
Proof.
  intros Hn Hlog. unfold notify_body.
  rewrite (getitem_Some _ _ _ Hn), bind_Ok.
  rewrite (getitem_Some _ "notifications_sent" (VInt (n + 1)))
    by apply lookup_insert_eq.
  rewrite bind_Ok.
  rewrite (getitem_Some _ "notification_log" (VLog log))
    by (by rewrite lookup_insert_ne).
  rewrite bind_Ok.
  destruct (decide (n = 0)) as [->|Hn0].
  - by rewrite decide_True.
  - rewrite decide_False; [done|]. intros [=]. lia.
Qed.

(** C10. When the notify action is called with an id that some incident
    has, the first incident with that id is the only one that changes:
    the incidents before and after it in the store (later ones of the same
    id included) and the rest of the session are as before.  In that
    incident the counter grows by exactly one and exactly one entry is
    appended to the log; every other key (id, type, location, status,
    timestamp, score, wellness counter, description) keeps its value. *)
Theorem notify_changes_counter_and_log_only incident_id now ss pre
    (inc : Incident) post n log :
  incidents ss = pre ++ inc :: post →
  id_absent incident_id pre →
  inc !! "id" = Some incident_id →
  inc !! "notifications_sent" = Some (VInt n) →
  inc !! "notification_log" = Some (VLog log) →
  ∃ (inc' : Incident) e out,
    send_notification_action incident_id now ss
    = Ok (set_incidents (pre ++ inc' :: post) ss, out)
    ∧ inc' !! "notifications_sent" = Some (VInt (n + 1))
    ∧ inc' !! "notification_log" = Some (VLog (log ++ [e]))
    ∧ ∀ k, k ≠ "notifications_sent" → k ≠ "notification_log" →
        inc' !! k = inc !! k.
Proof.
  intros Hss Hpre Hid Hn Hlog.
  pose proof (notify_body_ok incident_id now inc n log Hn Hlog) as Hbody.
  simpl in Hbody.
  unfold send_notification_action. rewrite Hss.
  rewrite (for_first_match_first _ _ _ _ _ _ _ Hpre Hid Hbody), bind_Ok.
  do 3 eexists. split; [reflexivity|].
  split; [by rewrite lookup_insert_ne, lookup_insert_eq|].
  split; [by rewrite lookup_insert_eq|].
  intros k Hk1 Hk2. by rewrite !lookup_insert_ne.
Qed.

Lemma notify_changes_counter_and_log_only_witness :
  let ss := set_incidents [scenario_B; scenario_A; scenario_C; scenario_A]
              initialize_state in
  ∃ (inc' : Incident) e out,
    send_notification_action (VStr "aaaaaaaa") (at_time 12) ss
    = Ok (set_incidents ([scenario_B] ++ inc' :: [scenario_C; scenario_A]) ss, out)
    ∧ inc' !! "notifications_sent" = Some (VInt (0 + 1))
    ∧ inc' !! "notification_log" = Some (VLog ([] ++ [e]))
    ∧ ∀ k, k ≠ "notifications_sent" → k ≠ "notification_log" →
        inc' !! k = scenario_A !! k.
Proof.
  apply notify_changes_counter_and_log_only.
  - reflexivity.
  - repeat constructor. eexists. split; [reflexivity | discriminate].
  - reflexivity.
  - reflexivity.
  - reflexivity.
Defined.

(** ** Tracked incidents *)

Lemma generate_incident_alerted_tracked ty loc score uuid now now' :
  tracked (<[ "notification_log" := VLog [email_entry now'] ]>
             (generate_incident ty loc score uuid now)).
Proof.
  split; try (eexists; reflexivity).
  exists 0, [email_entry now']. repeat split; reflexivity || lia.
Qed.

Lemma tracked_set_status (inc : Incident) s :
  tracked inc → tracked (<[ "status" := VStr s ]> inc).
Proof.
  intros [Hid Hty Hloc Hst Hts Hlog].
  split; rewrite ?lookup_insert_ne by done; try done.
  exists s. apply lookup_insert_eq.
Qed.

Lemma manual_recipients_succ n :
  manual_recipients (S n)
  = manual_recipients n
    ++ [if decide (n = 0%nat) then "Admin/Security" else "Parents/Counselors"].
Proof.
  destruct n as [|n]; [done|]. simpl. f_equal.
  change ("Parents/Counselors" :: replicate n "Parents/Counselors")
    with (replicate (S n) "Parents/Counselors").
  by rewrite replicate_S_end.
Qed.

Lemma tracked_notify incident_id now (inc : Incident) :
  tracked inc →
  ∃ (inc' : Incident) c,
    notify_body incident_id now inc = Ok (inc', c)
    ∧ tracked inc' ∧ inc' !! "type" = inc !! "type".
Proof.
  intros [Hid Hty Hloc [s Hs] [t Ht] (n & log & Hn & Hpos & Hlog & Hrec)].
  pose proof (notify_body_ok incident_id now inc n log Hn Hlog) as Hbody.
  simpl in Hbody. rewrite Hbody. do 2 eexists. split; [reflexivity|].
  split; [|by rewrite !lookup_insert_ne].
  split; rewrite ?lookup_insert_ne by done; eauto.
  exists (n + 1), (log ++ [mk_entry (strftime_HMS now)
    (if decide (n = 0) then "Admin/Security" else "Parents/Counselors")]).
  rewrite !lookup_insert_eq. split; [done|]. split; [lia|]. split; [done|].
  rewrite fmap_app, Hrec. simpl.
  replace (Z.to_nat (n + 1)) with (S (Z.to_nat n)) by lia.
  rewrite manual_recipients_succ. simpl. do 3 f_equal.
  destruct (decide (n = 0)), (decide (Z.to_nat n = 0%nat)); done || lia.
Qed.

(** The loop of the callbacks on a store of tracked incidents, for a
    body that keeps incidents tracked and does not touch their type. *)
Lemma for_first_match_tracked {A} incident_id
    (body : Incident → result (Incident * A)) l :
  (∀ inc : Incident, tracked inc →
     ∃ (inc' : Incident) a, body inc = Ok (inc', a)
       ∧ tracked inc' ∧ inc' !! "type" = inc !! "type") →
  Forall tracked l →
  ∃ l' a, for_first_match incident_id body l = Ok (l', a)
    ∧ Forall tracked l' ∧ is_live <$> l' = is_live <$> l.
Proof.
  intros Hbody. induction 1 as [|inc l Hinc Hl (l' & a & IH & Hl' & Hlive)].
  { by exists [], None. }
  simpl. destruct (tracked_id _ Hinc) as [i Hi].
  rewrite (getitem_Some _ _ _ Hi), bind_Ok.
  destruct (decide (i = incident_id)) as [->|Hne].
  - destruct (Hbody _ Hinc) as (inc' & b & -> & Hinc' & Hty).
    rewrite bind_Ok. do 2 eexists. split; [reflexivity|].
    split; [by constructor|]. rewrite !fmap_cons. f_equal.
    unfold is_live. by rewrite Hty.
  - rewrite IH, bind_Ok. do 2 eexists. split; [reflexivity|].
    split; [by constructor|]. rewrite !fmap_cons. by rewrite Hlive.
Qed.

(** ** The sort of the incident list *)

Lemma lex_lt_asym a b : lex_lt a b = true → lex_lt b a = false.
Proof.
  revert b. induction a as [|x a IH]; intros [|y b]; simpl; try done.
  destruct (decide (x = y)) as [->|Hne].
  - rewrite decide_True by done. apply IH.
  - rewrite decide_False by done. intros Hlt%bool_decide_eq_true.
    apply bool_decide_eq_false. lia.
Qed.

Lemma lex_lt_negtrans a b c :
  lex_lt a b = false → lex_lt b c = false → lex_lt a c = false.
Proof.
  revert b c. induction a as [|x a IH]; intros [|y b] [|z c]; simpl; try done.
  repeat case_decide; subst; try done;
    rewrite ?bool_decide_eq_false; eauto; lia.
Qed.

Lemma str_lt_irrefl a : str_lt a a = false.
Proof. induction a as [|x a IH]; simpl; [done|]. by rewrite decide_True. Qed.

Lemma str_lt_asym a b : str_lt a b = true → str_lt b a = false.
Proof.
  revert b. induction a as [|x a IH]; intros [|y b]; simpl; try done.
  destruct (decide (x = y)) as [->|Hne].
  - rewrite decide_True by done. apply IH.
  - rewrite decide_False by done. intros Hlt%bool_decide_eq_true.
    apply bool_decide_eq_false. lia.
Qed.

Lemma ascii_code_inj x y : Ascii.N_of_ascii x = Ascii.N_of_ascii y → x = y.
Proof. intros H. by rewrite <-(Ascii.ascii_N_embedding x), <-(Ascii.ascii_N_embedding y), H. Qed.

Lemma str_lt_negtrans a b c :
  str_lt a b = false → str_lt b c = false → str_lt a c = false.
Proof.
  revert b c. induction a as [|x a IH]; intros [|y b] [|z c]; simpl; try done.
  destruct (decide (x = y)) as [->|Hxy], (decide (y = z)) as [->|Hyz];
    rewrite ?decide_True by done; rewrite ?decide_False by done;
    [apply IH|done|done|].
  intros H1%bool_decide_eq_false H2%bool_decide_eq_false.
  destruct (decide (x = z)) as [->|Hxz].
  - destruct Hyz. apply ascii_code_inj. lia.
  - apply bool_decide_eq_false. lia.
Qed.

Lemma log_lt_irrefl a : log_lt a a = Ok false.
Proof. induction a as [|x a IH]; simpl; [done|]. by rewrite decide_True. Qed.

Lemma log_lt_asym a b : log_lt a b = Ok true → log_lt b a = Ok false.
Proof.
  revert b. induction a as [|x a IH]; intros [|y b]; simpl; try done.
  destruct (decide (x = y)) as [->|Hne]; [|done].
  rewrite decide_True by done. apply IH.
Qed.

Lemma log_lt_negtrans a b c :
  log_lt a b = Ok false → log_lt b c = Ok false → log_lt a c = Ok false.
Proof.
  revert b c. induction a as [|x a IH]; intros [|y b] [|z c]; simpl; try done.
  repeat case_decide; subst; try done. apply IH.
Qed.



Lemma log_lt_comparable a b b1 : log_lt a b = Ok b1 → ∃ b2, log_lt b a = Ok b2.
Proof.
  revert b. induction a as [|x a IH]; intros [|y b]; simpl; eauto.
  destruct (decide (x = y)) as [->|Hne]; [|done].
  rewrite decide_True by done. apply IH.
Qed.

Lemma value_lt_irrefl v : value_lt v v = Ok false.
Proof.
  destruct v as [a|a|t|a]; simpl.
  - by rewrite str_lt_irrefl.
  - by rewrite bool_decide_eq_false_2 by lia.
  - f_equal. unfold datetime_lt.
    destruct (lex_lt (datetime_fields t) (datetime_fields t)) eqn:H; [|done].
    pose proof (lex_lt_asym _ _ H). congruence.
  - apply log_lt_irrefl.
Qed.

Lemma value_lt_asym v w : value_lt v w = Ok true → value_lt w v = Ok false.
Proof.
  destruct v as [a|a|t|a], w as [b|b|u|b]; simpl; try done.
  - intros [= H]. by rewrite (str_lt_asym _ _ H).
  - intros [= H%bool_decide_eq_true]. by rewrite bool_decide_eq_false_2 by lia.
  - intros [= H]. f_equal. by apply lex_lt_asym.
  - apply log_lt_asym.
Qed.

Lemma value_lt_negtrans u v w :
  value_lt u v = Ok false → value_lt v w = Ok false → value_lt u w = Ok false.
Proof.
  destruct u as [a|a|t1|a], v as [b|b|t2|b], w as [c|c|t3|c]; simpl; try done.
  - intros [= H1] [= H2]. by rewrite (str_lt_negtrans _ _ _ H1 H2).
  - intros [= H1%bool_decide_eq_false] [= H2%bool_decide_eq_false].
    by rewrite bool_decide_eq_false_2 by lia.
  - intros [= H1] [= H2]. f_equal. by eapply lex_lt_negtrans.
  - apply log_lt_negtrans.
Qed.

Lemma value_lt_comparable v w b1 : value_lt v w = Ok b1 → ∃ b2, value_lt w v = Ok b2.
Proof.
  destruct v as [a|a|t|a], w as [b|b|u|b]; simpl; try done; eauto.
  apply log_lt_comparable.
Qed.

(** The test for equal timestamps in [key_lt] saves a comparison; it does
    not change the result. *)
Lemma key_lt_value k1 k2 :
  key_lt k1 k2
  = if decide (k1.1 = k2.1) then value_lt k1.2 k2.2 else Ok (negb k1.1 && k2.1).
Proof.
  unfold key_lt. case_decide; [|done]. case_decide as Heq; [|done].
  rewrite Heq. symmetry. apply value_lt_irrefl.
Qed.

Lemma key_lt_irrefl k : key_lt k k = Ok false.
Proof. unfold key_lt. by rewrite !decide_True. Qed.

Lemma key_lt_asym k1 k2 : key_lt k1 k2 = Ok true → key_lt k2 k1 = Ok false.
Proof.
  rewrite !key_lt_value. destruct k1 as [b1 t1], k2 as [b2 t2]. simpl.
  destruct (decide (b1 = b2)) as [->|Hne].
  - rewrite decide_True by done. apply value_lt_asym.
  - rewrite decide_False by done. by destruct b1, b2.
Qed.

Lemma key_lt_negtrans k1 k2 k3 :
  key_lt k1 k2 = Ok false → key_lt k2 k3 = Ok false → key_lt k1 k3 = Ok false.
Proof.
  rewrite !key_lt_value.
  destruct k1 as [b1 t1], k2 as [b2 t2], k3 as [b3 t3]. simpl.
  destruct b1, b2, b3; simpl; try done; apply value_lt_negtrans.
Qed.

Lemma comparable_sym k1 k2 : comparable k1 k2 → comparable k2 k1.
Proof.
  unfold comparable. rewrite !key_lt_value. intros [b Hb].
  destruct (decide (k1.1 = k2.1)) as [Heq|Hne].
  - rewrite decide_True by done. by eapply value_lt_comparable.
  - rewrite decide_False by done. eauto.
Qed.

(** Datetimes are ordered. *)
Lemma comparable_datetimes (k1 k2 : bool * value) t u :
  k1.2 = VTime t → k2.2 = VTime u → comparable k1 k2.
Proof.
  intros H1 H2. unfold comparable. rewrite key_lt_value, H1, H2. simpl.
  case_decide; eauto.
Qed.

Lemma insert_desc_perm {A} (kx : bool * value * A) l l' :
  insert_desc kx l = Ok l' → l' ≡ₚ kx :: l.
Proof.
  revert l'. induction l as [|ky l IH]; intros l'; simpl.
  { by intros [= <-]. }
  destruct (key_lt kx.1 ky.1) as [[|]|]; simpl; [|by intros [= <-]|done].
  destruct (insert_desc kx l) as [r|]; simpl; [|done].
  intros [= <-]. rewrite (IH r eq_refl). apply Permutation_swap.
Qed.

Lemma sort_desc_perm {A} (l l' : list (bool * value * A)) :
  sort_desc l = Ok l' → l' ≡ₚ l.
Proof.
  revert l'. induction l as [|kx l IH]; intros l'; simpl.
  { by intros [= <-]. }
  destruct (sort_desc l) as [r|]; simpl; [|done].
  intros ->%insert_desc_perm. by rewrite (IH r eq_refl).
Qed.

Lemma insert_desc_comparable {A} (kx : bool * value * A) l :
  Forall (λ ky, comparable kx.1 ky.1) l → ∃ l', insert_desc kx l = Ok l'.
Proof.
  induction 1 as [|ky l [b Hb] Hl [r IH]]; simpl; [by eauto|].
  rewrite Hb. simpl. destruct b; [|by eauto]. rewrite IH. simpl. eauto.
Qed.

(** The sort returns when every two keys can be compared ... *)
Lemma sort_desc_comparable {A} (l : list (bool * value * A)) :
  (∀ kx ky, kx ∈ l → ky ∈ l → comparable kx.1 ky.1) →
  ∃ l', sort_desc l = Ok l'.
Proof.
  induction l as [|kx l IH]; intros Hl; simpl; [by eauto|].
  destruct IH as [r Hr].
  { intros ky kz Hy Hz. apply Hl; by right. }
  rewrite Hr. simpl. apply insert_desc_comparable.
  apply Forall_forall. intros ky Hy.
  rewrite (sort_desc_perm _ _ Hr) in Hy.
  apply Hl; [by left|by right].
Qed.

Lemma insert_desc_sorted {A} (kx : bool * value * A) l l' :
  StronglySorted (λ x y, key_lt x.1 y.1 = Ok false) l →
  insert_desc kx l = Ok l' →
  StronglySorted (λ x y, key_lt x.1 y.1 = Ok false) l'.
Proof.
  intros Hl. revert l'.
  induction Hl as [|ky l Hl IH Hky]; intros l'; simpl.
  { intros [= <-]. by repeat constructor. }
  destruct (key_lt kx.1 ky.1) as [[|]|] eqn:Hlt; simpl; [| |done].
  - destruct (insert_desc kx l) as [r|] eqn:Hr; simpl; [|done].
    intros [= <-]. constructor; [by apply IH|].
    rewrite (insert_desc_perm _ _ _ Hr).
    constructor; [by apply key_lt_asym|done].
  - intros [= <-]. constructor; [by constructor|]. constructor; [done|].
    eapply Forall_impl; [exact Hky|]. intros kz Hkz. simpl in Hkz.
    by eapply key_lt_negtrans.
Qed.

Lemma sort_desc_sorted {A} (l l' : list (bool * value * A)) :
  sort_desc l = Ok l' →
  StronglySorted (λ x y, key_lt x.1 y.1 = Ok false) l'.
Proof.
  revert l'. induction l as [|kx l IH]; intros l'; simpl.
  { intros [= <-]. constructor. }
  destruct (sort_desc l) as [r|]; simpl; [|done].
  apply insert_desc_sorted. by apply IH.
Qed.

(** ... and only then. *)
Lemma sort_desc_returns {A} (l l' : list (bool * value * A)) kx ky :
  sort_desc l = Ok l' → kx ∈ l → ky ∈ l → comparable kx.1 ky.1.
Proof.
  intros Hs Hx Hy.
  pose proof (sort_desc_sorted _ _ Hs) as Hsorted.
  rewrite <-(sort_desc_perm _ _ Hs) in Hx, Hy. clear Hs.
  induction Hsorted as [|kz r Hr IH Hkz]; [by apply elem_of_nil in Hx|].
  rewrite Forall_forall in Hkz.
  apply elem_of_cons in Hx as [->|Hx], Hy as [->|Hy].
  - exists false. apply key_lt_irrefl.
  - exists false. by apply Hkz.
  - apply comparable_sym. exists false. by apply Hkz.
  - by apply IH.
Qed.

(** On the keys of a list in which all neighbours can be compared, and
    the first is not below the second, every two keys can be compared. *)
Lemma neighbours_comparable (l : list (bool * value)) k1 k2 :
  Sorted (λ x y, key_lt x y = Ok false) l →
  k1 ∈ l → k2 ∈ l → comparable k1 k2.
Proof.
  intros Hl%Sorted_StronglySorted; [|intros x y z; apply key_lt_negtrans].
  induction Hl as [|k r Hr IH Hk]; [by intros ?%elem_of_nil|].
  rewrite Forall_forall in Hk.
  intros [->|H1]%elem_of_cons [->|H2]%elem_of_cons.
  - exists false. apply key_lt_irrefl.
  - exists false. by apply Hk.
  - apply comparable_sym. exists false. by apply Hk.
  - by apply IH.
Qed.

Lemma sort_key_tracked (inc : Incident) :
  tracked inc → ∃ b t, sort_key inc = Ok (b, VTime t).
Proof.
  intros Hinc.
  destruct (tracked_status _ Hinc) as [s Hs].
  destruct (tracked_timestamp _ Hinc) as [t Ht].
  unfold sort_key. known_item Hs. known_item Ht. eauto.
Qed.

Lemma decorate_tracked (l : list Incident) :
  Forall tracked l →
  ∃ keyed, mapM (λ x, k ← sort_key x; Ok (k, x)) l = Ok keyed
    ∧ snd <$> keyed = l
    ∧ Forall (λ kx, ∃ t, kx.1.2 = VTime t) keyed.
Proof.
  induction 1 as [|inc l Hinc Hl (keyed & IH & Hsnd & Ht)]; [by exists []|].
  destruct (sort_key_tracked _ Hinc) as (b & t & Hk).
  exists ((b, VTime t, inc) :: keyed).
  split; [|split; [by rewrite <-Hsnd|constructor; by eauto]].
  simpl. rewrite Hk, !bind_Ok, IH. reflexivity.
Qed.

(** A list of keys with datetime timestamps is sorted without raising. *)
Lemma sort_desc_datetimes {A} (l : list (bool * value * A)) :
  Forall (λ kx, ∃ t, kx.1.2 = VTime t) l → ∃ l', sort_desc l = Ok l'.
Proof.
  rewrite Forall_forall. intros Hl. apply sort_desc_comparable.
  intros kx ky [t Ht]%Hl [u Hu]%Hl. by eapply comparable_datetimes.
Qed.

Lemma sorted_incidents_tracked (l : list Incident) :
  Forall tracked l →
  ∃ l', sorted_incidents l = Ok l' ∧ l' ≡ₚ l.
Proof.
  intros Hl. destruct (decorate_tracked l Hl) as (keyed & Hk & Hsnd & Ht).
  destruct (sort_desc_datetimes keyed Ht) as [sorted Hs].
  unfold sorted_incidents. rewrite Hk, bind_Ok, Hs, bind_Ok.
  eexists. split; [reflexivity|]. by rewrite (sort_desc_perm _ _ Hs), Hsnd.
Qed.

Lemma render_cards_tracked click (l : list Incident) ss :
  Forall tracked l →
  ∃ a b, render_cards click l ss = Ok (set_active_incident_id a ss, b).
Proof.
  intros Hl. revert click.
  induction Hl as [|inc l Hinc Hl IH]; intros click.
  { exists (active_incident_id ss), false. by destruct ss. }
  simpl.
  destruct (tracked_type _ Hinc) as [ty Hty].
  destruct (tracked_location _ Hinc) as [loc Hloc].
  destruct (tracked_status _ Hinc) as [s Hs].
  destruct (tracked_id _ Hinc) as [i Hi].
  known_item Hty. known_item Hloc. known_item Hs. known_item Hi.
  destruct click as [[|c]|]; [by eauto|apply IH|apply IH].
Qed.

(** ** The operations keep the invariant *)

Lemma log_and_alert_generated fault now' ty loc score uuid now ss :
  let new_incident := generate_incident ty loc score uuid now in
  log_and_alert fault now' new_incident ss
  = Ok ({| incidents :=
             incidents ss
             ++ [<[ "notification_log" := VLog [email_entry now'] ]> new_incident];
           active_incident_id := Some (VStr (String.substring 0 8 uuid));
           risk_zones := risk_zones ss;
           violation_detected := violation_detected ss;
           email_sent_for_last_detection := email_sent_for_last_detection ss |},
        alert_report fault new_incident).
Proof.
  intros new_incident. unfold log_and_alert.
  rewrite (getitem_Some new_incident "id" (VStr (String.substring 0 8 uuid)))
    by reflexivity.
  rewrite bind_Ok.
  rewrite (send_alert_email_appends _ _ new_incident []) by reflexivity.
  rewrite bind_Ok. simpl.
  rewrite insert_app_r_alt by lia. rewrite Nat.sub_diag. reflexivity.
Qed.

Lemma live_incidents_app l1 l2 :
  live_incidents (l1 ++ l2) = live_incidents l1 ++ live_incidents l2.
Proof. apply List.filter_app. Qed.

Lemma live_incidents_fmap l1 l2 :
  is_live <$> l1 = is_live <$> l2 →
  length (live_incidents l1) = length (live_incidents l2).
Proof.
  revert l2. induction l1 as [|x l1 IH]; intros [|y l2] Heq; try done.
  rewrite !fmap_cons in Heq. injection Heq as Hxy Heq.
  simpl. rewrite Hxy. destruct (is_live y); simpl; by rewrite (IH l2).
Qed.

Lemma session_inv_init : session_inv initialize_state.
Proof. by split. Qed.

Lemma session_inv_log_and_alert ss ty loc score uuid now now' a v e :
  session_inv ss →
  (if bool_decide (ty = "Confirmed Live Violence")
   then email_sent_for_last_detection ss = false ∧ e = true
   else e = email_sent_for_last_detection ss) →
  session_inv
    {| incidents :=
         incidents ss
         ++ [<[ "notification_log" := VLog [email_entry now'] ]>
               (generate_incident ty loc score uuid now)];
       active_incident_id := a;
       risk_zones := risk_zones ss;
       violation_detected := v;
       email_sent_for_last_detection := e |}.
Proof.
  intros [Htr Hlive] He. split; simpl.
  - apply Forall_app. split; [done|].
    apply Forall_singleton, generate_incident_alerted_tracked.
  - rewrite live_incidents_app, length_app, Hlive. simpl.
    replace (is_live _) with (bool_decide (ty = "Confirmed Live Violence")).
    + case_bool_decide; [destruct He as [-> ->]|subst e]; simpl; lia.
    + unfold is_live. apply bool_decide_ext.
      change (generate_incident _ _ _ _ _) with (generate_incident ty loc score uuid now).
      rewrite lookup_insert_ne by done.
      replace (generate_incident ty loc score uuid now !! "type")
        with (Some (VStr ty)) by reflexivity.
      split; [by intros ->|by intros [=]].
Qed.

Lemma handle_update_status_inv incident_id s ss :
  session_inv ss →
  ∃ ss', handle_update incident_id "status" (VStr s) ss = Ok ss'
    ∧ session_inv ss'.
Proof.
  intros [Htr Hlive]. unfold handle_update.
  destruct (for_first_match_tracked incident_id
              (λ incident : Incident, Ok (<[ "status" := VStr s ]> incident, ()))
              (incidents ss)) as (l' & a & -> & Htr' & Hl'); [|done|].
  { intros inc Hinc. do 2 eexists. split; [reflexivity|].
    split; [by apply tracked_set_status|by rewrite lookup_insert_ne]. }
  rewrite bind_Ok. eexists. split; [reflexivity|].
  split; simpl; [done|]. by rewrite (live_incidents_fmap _ _ Hl').
Qed.

Lemma send_notification_action_inv incident_id now ss :
  session_inv ss →
  ∃ ss' out, send_notification_action incident_id now ss = Ok (ss', out)
    ∧ session_inv ss'.
Proof.
  intros [Htr Hlive]. unfold send_notification_action.
  destruct (for_first_match_tracked incident_id (notify_body incident_id now)
              (incidents ss)) as (l' & a & -> & Htr' & Hl'); [|done|].
  { intros inc Hinc. by apply tracked_notify. }
  rewrite bind_Ok. do 2 eexists. split; [reflexivity|].
  split; simpl; [done|]. by rewrite (live_incidents_fmap _ _ Hl').
Qed.

Lemma live_check_inv o ss :
  session_inv ss →
  ∃ ss' out b, live_check o ss = Ok (ss', out, b) ∧ session_inv ss'.
Proof.
  intros Hinv. unfold live_check.
  destruct (violation_detected ss) eqn:Hv,
    (email_sent_for_last_detection ss) eqn:He; simpl; eauto 6.
  rewrite log_and_alert_generated, bind_Ok.
  do 3 eexists. split; [reflexivity|].
  unfold set_violation_detected, set_email_sent_for_last_detection. simpl.
  by apply session_inv_log_and_alert.
Qed.

Lemma incident_list_panel_inv click ss :
  session_inv ss →
  ∃ ss' b, incident_list_panel click ss = Ok (ss', b) ∧ session_inv ss'.
Proof.
  intros [Htr Hlive]. unfold incident_list_panel.
  destruct (sorted_incidents_tracked _ Htr) as (l' & -> & Hperm).
  rewrite bind_Ok.
  destruct (render_cards_tracked click l' ss) as (a & b & ->).
  { by rewrite Hperm. }
  do 2 eexists. split; [reflexivity|]. by split.
Qed.

Lemma file_analysis_panel_inv uploaded_file o ss :
  session_inv ss →
  ∃ ss' out b, file_analysis_panel uploaded_file o ss = Ok (ss', out, b)
    ∧ session_inv ss'.
Proof.
  intros Hinv. unfold file_analysis_panel.
  destruct uploaded_file as [f|]; [|by eauto 6].
  repeat case_decide; [| |by eauto 6].
  - unfold process_uploaded_image, image_analysis.
    case_decide; [|by eauto 6]. destruct (button f); [|by eauto 6].
    rewrite log_and_alert_generated, bind_Ok.
    do 3 eexists. split; [reflexivity|].
    by apply session_inv_log_and_alert.
  - unfold process_uploaded_video, video_analysis.
    destruct (button f); [|by eauto 6]. case_decide; [|by eauto 6].
    rewrite log_and_alert_generated, bind_Ok.
    do 3 eexists. split; [reflexivity|].
    by apply session_inv_log_and_alert.
Qed.

Lemma main_inv click uploaded_file o ss :
  session_inv ss →
  ∃ ss' out, main click uploaded_file o ss = Ok (ss', out) ∧ session_inv ss'.
Proof.
  intros Hinv. unfold main.
  destruct (live_check_inv o ss Hinv) as (ss1 & out1 & b1 & -> & Hinv1).
  rewrite bind_Ok. destruct b1; [by eauto|].
  destruct (incident_list_panel_inv click ss1 Hinv1) as (ss2 & b2 & -> & Hinv2).
  rewrite bind_Ok. destruct b2; [by eauto|].
  destruct (file_analysis_panel_inv uploaded_file o ss2 Hinv2)
    as (ss3 & out3 & b3 & -> & Hinv3).
  rewrite bind_Ok. eauto.
Qed.

Lemma recv_inv d ss :
  session_inv ss → session_inv (recv d ss).1.2.
Proof.
  intros [Htr Hlive]. unfold recv.
  repeat case_decide; simpl; try done;
    destruct (violation_detected ss), (detection_triggered d); by split.
Qed.

Lemma step_inv e w :
  session_inv (session w) →
  ∃ w', step e w = Ok w' ∧ session_inv (session w').
Proof.
  intros Hinv. destruct e as [| |click f o|incident_id s|incident_id now]; simpl.
  - eauto.
  - pose proof (recv_inv (video_processor w) _ Hinv) as Hr.
    destruct (recv _ _) as [[d ss] ov]. eauto.
  - destruct (main_inv click f o _ Hinv) as (ss' & out & -> & Hinv').
    rewrite bind_Ok. eauto.
  - destruct (handle_update_status_inv incident_id s _ Hinv) as (ss' & -> & Hinv').
    rewrite bind_Ok. eauto.
  - destruct (send_notification_action_inv incident_id now _ Hinv)
      as (ss' & out & -> & Hinv').
    rewrite bind_Ok. eauto.
Qed.

Lemma run_inv tr w :
  session_inv (session w) →
  ∃ w', run tr w = Ok w' ∧ session_inv (session w').
Proof.
  revert w. induction tr as [|e tr IH]; intros w Hinv; simpl; [by eauto|].
  destruct (step_inv e w Hinv) as (w1 & -> & Hinv1).
  rewrite bind_Ok. by apply IH.
Qed.

(** ** Live polls *)

Lemma run_app tr1 tr2 w : run (tr1 ++ tr2) w = run tr1 w ≫= run tr2.
Proof.
  revert w. induction tr1 as [|e tr1 IH]; intros w; simpl; [done|].
  destruct (step e w) as [w'|]; simpl; [apply IH|done].
Qed.

Lemma render_cards_None (l : list Incident) ss :
  Forall tracked l → render_cards None l ss = Ok (ss, false).
Proof.
  induction 1 as [|inc l Hinc Hl IH]; simpl; [done|].
  destruct (tracked_type _ Hinc) as [ty Hty].
  destruct (tracked_location _ Hinc) as [loc Hloc].
  destruct (tracked_status _ Hinc) as [s Hs].
  destruct (tracked_id _ Hinc) as [i Hi].
  known_item Hty. known_item Hloc. known_item Hs. by known_item Hi.
Qed.

(** A script run with no operator input and no pending detection
    changes nothing. *)
Lemma main_idle o ss :
  Forall tracked (incidents ss) →
  violation_detected ss && negb (email_sent_for_last_detection ss) = false →
  main None None o ss = Ok (ss, []).
Proof.
  intros Htr Hidle. unfold main, live_check. rewrite Hidle, bind_Ok.
  unfold incident_list_panel.
  destruct (sorted_incidents_tracked _ Htr) as (l' & -> & Hperm).
  rewrite bind_Ok, render_cards_None by (by rewrite Hperm).
  reflexivity.
Qed.

(** A script run with a pending detection logs the live incident and
    stops there. *)
Lemma main_fires click f o ss :
  violation_detected ss = true →
  email_sent_for_last_detection ss = false →
  ∃ out,
    main click f o ss
    = Ok ({| incidents := incidents ss ++ [live_incident o];
             active_incident_id := Some (VStr (String.substring 0 8 (uuid o)));
             risk_zones := risk_zones ss;
             violation_detected := false;
             email_sent_for_last_detection := true |}, out).
Proof.
  intros Hv He. unfold main, live_check. rewrite Hv, He. simpl.
  rewrite log_and_alert_generated, !bind_Ok. eauto.
Qed.

Lemma tracked_live_incident o : tracked (live_incident o).
Proof. apply generate_incident_alerted_tracked. Qed.

(** The three phases of the detector. *)
Lemma recv_scanning d ss :
  frame_counter d < 90 → detection_triggered d = false →
  recv d ss
  = ({| violence_score := frame_counter d;
        frame_counter := frame_counter d + 1;
        detection_triggered := false |}, ss, Scanning (frame_counter d)).
Proof.
  intros Hc Ht. unfold recv.
  destruct (decide (frame_counter d < 100)); [simpl|lia].
  destruct (decide _) as [[? _]|_]; [lia|].
  rewrite Ht. by rewrite Z.min_r by lia.
Qed.

Lemma recv_rising_edge d ss :
  frame_counter d = 90 → detection_triggered d = false →
  violation_detected ss = false →
  recv d ss
  = ({| violence_score := 90; frame_counter := 91; detection_triggered := true |},
     set_violation_detected true ss, ViolenceDetected).
Proof.
  intros Hc Ht Hv. unfold recv.
  destruct (decide (frame_counter d < 100)); [simpl|lia].
  destruct (decide _) as [_|Hn]; [|destruct Hn; split; [lia|done]].
  by rewrite Hc, Hv.
Qed.

Lemma recv_alert_active d ss :
  detection_triggered d = true →
  recv d ss
  = (if decide (frame_counter d < 100) then
       {| violence_score := Z.min 100 (frame_counter d);
          frame_counter := frame_counter d + 1;
          detection_triggered := true |}
     else d, ss, AlertActive).
Proof.
  intros Ht. unfold recv.
  destruct (decide (frame_counter d < 100)); simpl; rewrite Ht;
    (destruct (decide _) as [[_ [=]]|_]); done.
Qed.

Lemma run_poll o w :
  run (poll o) w
  = '(ss, _) ← main None None o (recv (video_processor w) (session w)).1.2;
    Ok {| session := ss;
          video_processor := (recv (video_processor w) (session w)).1.1 |}.
Proof.
  unfold poll, run, step. destruct (recv _ _) as [[d ss] ov].
  rewrite bind_Ok. cbn [fst snd session video_processor].
  by destruct (main None None o ss) as [[??]|].
Qed.

Lemma run_poll_after_polls os o :
  run (poll o) (after_polls os) = Ok (after_polls (os ++ [o])).
Proof.
  rewrite run_poll.
  unfold after_polls. rewrite length_app. simpl length.
  set (n := length os). cbn [video_processor session].
  destruct (decide (n < 90)%nat) as [Hlt|Hge].
  - (* still scanning *)
    rewrite !lookup_ge_None_2 by (rewrite ?length_app; simpl; lia).
    rewrite !bool_decide_eq_false_2 by lia.
    rewrite recv_scanning by (simpl; lia || done).
    cbn [fst snd]. rewrite main_idle by done. rewrite bind_Ok.
    cbn [frame_counter]. do 3 f_equal; lia.
  - destruct (decide (n = 90)%nat) as [Heq|Hne].
    + (* the frame that takes the score to 90 *)
      rewrite (lookup_ge_None_2 os) by lia.
      rewrite (list_lookup_middle os [] o 90) by done.
      rewrite (bool_decide_eq_false_2 (91 ≤ Z.of_nat n)) by lia.
      rewrite (bool_decide_eq_true_2 (91 ≤ _)) by lia.
      rewrite recv_rising_edge by (simpl; lia || done).
      cbn [fst snd].
      edestruct (main_fires None None o) as [out ->]; [reflexivity|reflexivity|].
      rewrite bind_Ok. cbn [incidents risk_zones set_violation_detected app].
      do 3 f_equal; lia.
    + (* the alert is active *)
      assert (is_Some (os !! 90%nat)) as [o' Ho'] by (apply lookup_lt_is_Some; lia).
      rewrite (lookup_app_l_Some _ _ _ _ Ho'), Ho'.
      rewrite !(bool_decide_eq_true_2 (91 ≤ _)) by lia.
      rewrite recv_alert_active by done. cbn [fst snd].
      rewrite main_idle by (by repeat constructor; apply tracked_live_incident).
      rewrite bind_Ok. cbn [frame_counter].
      f_equal. f_equal. case_decide; f_equal; lia.
Qed.

Lemma run_polls os : run (polls os) world_init = Ok (after_polls os).
Proof.
  induction os as [|o os IH] using rev_ind; [reflexivity|].
  unfold polls. rewrite fmap_app, concat_app, run_app. fold (polls os).
  rewrite IH, bind_Ok. apply run_poll_after_polls.
Qed.

(** The polls of a dashboard that has just started.  Take any number of
    live polls from the initial state, each a frame followed by a script
    run.  The score reaches the threshold of 90 on the 91st frame and the
    detector stays triggered from then on; with fewer than 91 polls the
    store is empty, and with 91 polls or more, however many, the store
    holds exactly one incident: the "Confirmed Live Violence" incident
    logged by the 91st poll. *)
Lemma initial_polls_log_one_incident (os : list oracle) :
  ∃ w, run (polls os) world_init = Ok w
    ∧ (90 ≤ violence_score (video_processor w) ↔ (91 ≤ length os)%nat)
    ∧ detection_triggered (video_processor w) = bool_decide (91 ≤ length os)%nat
    ∧ incidents (session w)
      = match os !! 90%nat with Some o => [live_incident o] | None => [] end
    ∧ length (live_incidents (incidents (session w)))
      = if decide (91 ≤ length os)%nat then 1%nat else 0%nat.
Proof.
  exists (after_polls os). split; [apply run_polls|].
  unfold after_polls. cbn [video_processor session violence_score
    detection_triggered incidents].
  split; [lia|]. split; [apply bool_decide_ext; lia|]. split; [done|].
  case_decide.
  - destruct (lookup_lt_is_Some_2 os 90) as [o ->]; [lia|]. reflexivity.
  - rewrite lookup_ge_None_2 by lia. reflexivity.
Qed.

(** Whatever the frames, script runs and operator actions and however
    they interleave, the dashboard never raises and never holds more
    than one live incident. *)
Lemma live_incident_at_most_once tr :
  ∃ w, run tr world_init = Ok w
    ∧ (length (live_incidents (incidents (session w))) ≤ 1)%nat.
Proof.
  destruct (run_inv tr world_init session_inv_init) as (w & Hrun & [_ Hlive]).
  exists w. split; [done|]. rewrite Hlive.
  destruct (email_sent_for_last_detection _); lia.
Qed.

(** ** Counter and log *)

Lemma manual_recipients_length n : length (manual_recipients n) = n.
Proof. destruct n; simpl; [done|]. by rewrite length_replicate. Qed.

Lemma manual_recipients_not_email n :
  filter (λ r, r ≠ "Email Alert System") (manual_recipients n)
  = manual_recipients n.
Proof.
  destruct n as [|n]; [done|]. unfold manual_recipients.
  rewrite filter_cons_True by done. f_equal.
  induction n as [|n IH]; [done|].
  simpl replicate. by rewrite filter_cons_True, IH.
Qed.

(** Counterexample to C1: after the 91 polls that log the live incident,
    that incident has [notifications_sent = 0] and a log of one entry. *)
Lemma counter_consistency_counterexample :
  ∃ w, run (polls (replicate 91 oracle_0)) world_init = Ok w
    ∧ incidents (session w) = [live_incident oracle_0]
    ∧ live_incident oracle_0 !! "notifications_sent" = Some (VInt 0)
    ∧ live_incident oracle_0 !! "notification_log"
      = Some (VLog [email_entry (at_time 10)])
    ∧ ¬ counter_consistent (live_incident oracle_0).
Proof.
  eexists. split; [apply run_polls|].
  split; [reflexivity|]. split; [reflexivity|]. split; [reflexivity|].
  intros (n & log & Hn & Hlog & Hlen).
  assert (n = 0) as -> by (by injection Hn).
  assert (log = [email_entry (at_time 10)]) as -> by (by injection Hlog).
  discriminate Hlen.
Qed.

(** C1, as the code has it.  In every state the dashboard reaches,
    [notifications_sent] of every incident is the number of log entries
    whose recipient is not "Email Alert System", that is the number of
    manual notifications; the log has one entry more, the alert sent when
    the incident was logged: [len(notification_log) == notifications_sent + 1]. *)
Theorem notifications_sent_counts_manual_entries tr :
  ∃ w, run tr world_init = Ok w
    ∧ Forall (λ inc : Incident, ∃ n log,
        inc !! "notifications_sent" = Some (VInt n)
        ∧ inc !! "notification_log" = Some (VLog log)
        ∧ n = Z.of_nat (length (filter (λ r, r ≠ "Email Alert System")
                                  (recipient <$> log)))
        ∧ Z.of_nat (length log) = n + 1)
      (incidents (session w)).
Proof.
  destruct (run_inv tr world_init session_inv_init) as (w & Hrun & [Htr _]).
  exists w. split; [done|].
  eapply Forall_impl; [exact Htr|]. intros inc Hinc.
  destruct (tracked_log _ Hinc) as (n & log & Hn & Hpos & Hlog & Hrec).
  exists n, log. split; [done|]. split; [done|].
  assert (length log = S (Z.to_nat n)) as Hlen.
  { by rewrite <-(length_fmap recipient), Hrec, length_cons, manual_recipients_length. }
  split; [|lia].
  rewrite Hrec, filter_cons_False by (by intros H; apply H).
  rewrite manual_recipients_not_email, manual_recipients_length. lia.
Qed.

(** Counterexample to C2: an image is uploaded and scored 85, the
    operator logs the incident and then sends two notifications.  The
    first entry of the log has recipient "Email Alert System";
    "Admin/Security" is the second. *)
Lemma first_recipient_counterexample :
  ∃ w (inc : Incident),
    run [Script None (Some (mk_uploaded "a.jpg" "image/jpeg" true)) oracle_0;
         Notify (VStr "0123abcd") (at_time 11);
         Notify (VStr "0123abcd") (at_time 12)] world_init = Ok w
    ∧ incidents (session w) = [inc]
    ∧ inc !! "notification_log"
      = Some (VLog [mk_entry "10:00:00" "Email Alert System";
                    mk_entry "11:00:00" "Admin/Security";
                    mk_entry "12:00:00" "Parents/Counselors"])
    ∧ ¬ first_recipient_rule inc.
Proof.
  do 2 eexists. split; [vm_compute; reflexivity|].
  split; [reflexivity|]. split; [reflexivity|].
  intros H. specialize (H _ eq_refl). discriminate H.
Qed.

(** C2, as the code has it.  In every state the dashboard reaches, the
    log of every incident starts with the "Email Alert System" entry of
    the alert sent when the incident was logged; the entries after it are
    those of the manual notifications, as many as [notifications_sent]
    counts: the first of them goes to "Admin/Security" and every later
    one to "Parents/Counselors". *)
Theorem manual_recipients_after_email_alert tr :
  ∃ w, run tr world_init = Ok w
    ∧ Forall (λ inc : Incident, ∃ (k : nat) log,
        inc !! "notifications_sent" = Some (VInt (Z.of_nat k))
        ∧ inc !! "notification_log" = Some (VLog log)
        ∧ recipient <$> log
          = "Email Alert System"
            :: match k with
               | O => []
               | S k => "Admin/Security" :: replicate k "Parents/Counselors"
               end)
      (incidents (session w)).
Proof.
  destruct (run_inv tr world_init session_inv_init) as (w & Hrun & [Htr _]).
  exists w. split; [done|].
  eapply Forall_impl; [exact Htr|]. intros inc Hinc.
  destruct (tracked_log _ Hinc) as (n & log & Hn & Hpos & Hlog & Hrec).
  exists (Z.to_nat n), log. by rewrite Z2Nat.id.
Qed.

(** ** One-shot analysis *)

Lemma randint_range a b r : a ≤ b → a ≤ randint a b r ≤ b.
Proof.
  intros Hab. unfold randint.
  pose proof (Z.mod_pos_bound r (b - a + 1)). lia.
Qed.

(** Every score of the range is drawn for some state of the generator. *)
Lemma randint_onto a b s : a ≤ s ≤ b → randint a b (s - a) = s.
Proof. intros Hs. unfold randint. rewrite Z.mod_small; lia. Qed.

(** Over one period of the generator, the states [0 .. b - a], every
    score of the range is drawn by exactly one state. *)
Lemma randint_uniform a b s r :
  a ≤ s ≤ b → 0 ≤ r < b - a + 1 → randint a b r = s ↔ r = s - a.
Proof. intros Hs Hr. unfold randint. rewrite Z.mod_small by lia. lia. Qed.

Lemma randint_periodic a b r :
  a ≤ b → randint a b (r + (b - a + 1)) = randint a b r.
Proof.
  intros Hab. unfold randint. f_equal.
  rewrite <-(Z.mul_1_l (b - a + 1)) at 1. apply Z.mod_add. lia.
Qed.

(** C7. [process_uploaded_image] draws its score with
    [random.randint(70, 100)] and hands it to the analysis; the draw lies
    in [70..100], and every score of that range is drawn by exactly one of
    the 31 generator states of a period, so no score is favoured.
    Whatever score [s] the draw returned, the analysis reports a violation
    exactly when [s >= 80]; for a score below 80 it only reports that there
    is no violation: the session is unchanged (no incident is created) and
    the output holds nothing of [send_alert_email].  [process_uploaded_video],
    once its button is pressed, does the same with [random.randint(85, 99)],
    15 states and the threshold 85. *)
Theorem one_shot_thresholds name pressed o ss (s : Z) :
  (process_uploaded_image name pressed o ss
   = image_analysis (randint 70 100 (rnd o)) name pressed o ss
   ∧ 70 ≤ randint 70 100 (rnd o) ≤ 100
   ∧ (∀ r, randint 70 100 (r + 31) = randint 70 100 r)
   ∧ (70 ≤ s ≤ 100 → ∀ r, 0 ≤ r < 31 → randint 70 100 r = s ↔ r = s - 70)
   ∧ ∃ ss' out b,
       image_analysis s name pressed o ss = Ok (ss', out, b)
       ∧ violation_reported out = bool_decide (80 ≤ s)
       ∧ (s < 80 →
          ss' = ss ∧ b = false
          ∧ out = [st_success [Lit "✅ No Violation Detected. Confidence: ";
                               Val (VInt s); Lit "%"];
                   st_image]))
  ∧ (process_uploaded_video name true o ss
     = video_analysis (randint 85 99 (rnd o)) name o ss
     ∧ 85 ≤ randint 85 99 (rnd o) ≤ 99
     ∧ (∀ r, randint 85 99 (r + 15) = randint 85 99 r)
     ∧ (85 ≤ s ≤ 99 → ∀ r, 0 ≤ r < 15 → randint 85 99 r = s ↔ r = s - 85)
     ∧ ∃ ss' out b,
         video_analysis s name o ss = Ok (ss', out, b)
         ∧ violation_reported out = bool_decide (85 ≤ s)
         ∧ (s < 85 →
            ss' = ss ∧ b = false
            ∧ out = [st_success
                       [Lit "✅ No Significant Violation Detected in video. Confidence: ";
                        Val (VInt s); Lit "%"]])).
Proof.
  split.
  - split; [reflexivity|]. split; [by apply randint_range|].
    split; [intros r; by apply (randint_periodic 70 100)|].
    split; [intros Hs r Hr; apply randint_uniform; lia|].
    unfold image_analysis.
    destruct (decide (s >= 80)) as [Hge|Hlt].
    + destruct pressed.
      * rewrite log_and_alert_generated, bind_Ok.
        do 3 eexists. split; [reflexivity|].
        split; [by rewrite bool_decide_eq_true_2 by lia|lia].
      * do 3 eexists. split; [reflexivity|].
        split; [by rewrite bool_decide_eq_true_2 by lia|lia].
    + do 3 eexists. split; [reflexivity|].
      split; [by rewrite bool_decide_eq_false_2 by lia|done].
  - split; [reflexivity|]. split; [by apply randint_range|].
    split; [intros r; by apply (randint_periodic 85 99)|].
    split; [intros Hs r Hr; apply randint_uniform; lia|].
    unfold video_analysis.
    destruct (decide (s >= 85)) as [Hge|Hlt].
    + rewrite log_and_alert_generated, bind_Ok.
      do 3 eexists. split; [reflexivity|].
      split; [by rewrite bool_decide_eq_true_2 by lia|lia].
    + do 3 eexists. split; [reflexivity|].
      split; [by rewrite bool_decide_eq_false_2 by lia|done].
Qed.

(** The boundary of the image analysis: a score of 80 is reported as a
    violation, a score of 79 is not. *)
Example image_threshold_boundary :
  randint 70 100 10 = 80 ∧ randint 70 100 9 = 79
  ∧ (∃ ss out b,
       process_uploaded_image "a.jpg" false
         (mk_oracle 10 "" (at_time 10) (at_time 10) None) initialize_state
       = Ok (ss, out, b) ∧ violation_reported out = true)
  ∧ (∃ out,
       process_uploaded_image "a.jpg" true
         (mk_oracle 9 "" (at_time 10) (at_time 10) None) initialize_state
       = Ok (initialize_state, out, false) ∧ violation_reported out = false).
Proof.
  split; [reflexivity|]. split; [reflexivity|].
  split; [do 3 eexists|eexists]; split; reflexivity.
Qed.

(** ** The order of the incident list *)

Lemma decorate_keys (l : list Incident) keyed :
  mapM (λ x, k ← sort_key x; Ok (k, x)) l = Ok keyed →
  Forall (λ kx, sort_key kx.2 = Ok kx.1) keyed ∧ snd <$> keyed = l.
Proof.
  revert keyed. induction l as [|x l IH]; intros keyed; simpl.
  { intros [= <-]. by split. }
  destruct (sort_key x) as [k|] eqn:Hk; [|done]. rewrite !bind_Ok.
  destruct (mapM _ l) as [keyed'|]; [|done]. rewrite bind_Ok.
  intros [= <-]. destruct (IH keyed' eq_refl) as [Hkeys Hsnd].
  split; [by constructor|]. by rewrite fmap_cons, Hsnd.
Qed.

(** What the list panel shows, whenever the sort returns: the incidents
    of the store, each before those whose key is not above its own. *)
Lemma sorted_incidents_descending (l l' : list Incident) :
  sorted_incidents l = Ok l' →
  l' ≡ₚ l ∧ StronglySorted shown_before l'.
Proof.
  unfold sorted_incidents. destruct (mapM _ l) as [keyed|] eqn:Hk; [|done].
  rewrite bind_Ok. destruct (sort_desc keyed) as [sorted|] eqn:Hs; [|done].
  rewrite bind_Ok. intros [= <-].
  destruct (decorate_keys _ _ Hk) as [Hkeys Hsnd]. split.
  { by rewrite (sort_desc_perm _ _ Hs), Hsnd. }
  rewrite <-(sort_desc_perm _ _ Hs) in Hkeys.
  pose proof (sort_desc_sorted _ _ Hs) as Hsorted. clear Hs.
  induction Hsorted as [|kx r Hr IH Hkx]; [constructor|].
  apply Forall_cons in Hkeys as [Hx Hkeys].
  rewrite fmap_cons. constructor; [by apply IH|].
  apply Forall_fmap. rewrite Forall_forall in Hkx, Hkeys |- *.
  intros ky Hin. exists kx.1, ky.1. eauto.
Qed.

(** The panel never shows a New incident above one of another status:
    whatever follows a New incident in the list is New as well. *)
Lemma new_incidents_shown_last (l l1 l2 : list Incident) (x : Incident) :
  sorted_incidents l = Ok (l1 ++ x :: l2) →
  x !! "status" = Some (VStr "New") →
  Forall (λ y : Incident, y !! "status" = Some (VStr "New")) l2.
Proof.
  intros [_ Hsorted]%sorted_incidents_descending Hx.
  apply StronglySorted_app_1_r, StronglySorted_cons in Hsorted as [Hx2 _].
  eapply Forall_impl; [exact Hx2|].
  intros y (kx & ky & Hkx & Hky & Hlt).
  unfold sort_key, getitem in Hkx, Hky. rewrite Hx in Hkx. simpl in Hkx.
  destruct (x !! "timestamp") as [t|]; [|done]. injection Hkx as <-.
  destruct (y !! "status") as [s|]; [|done]. simpl in Hky.
  destruct (y !! "timestamp") as [u|]; [|done]. injection Hky as <-.
  rewrite key_lt_value in Hlt. simpl in Hlt.
  destruct (bool_decide (s ≠ VStr "New")) eqn:Hs.
  - by rewrite decide_False in Hlt.
  - apply bool_decide_eq_false in Hs. f_equal. by apply dec_stable.
Qed.

(** C3 on the code.  For the store A (New, 10:00), B (Resolved, 11:00),
    C (New, 09:00) the list panel shows B, A, C: [reverse=True] reverses
    the whole key, so the incidents that are not New come first. *)
Theorem incident_list_scenario_order :
  sorted_incidents [scenario_A; scenario_B; scenario_C]
  = Ok [scenario_B; scenario_A; scenario_C]
  ∧ scenario_A !! "status" = Some (VStr "New")
  ∧ scenario_B !! "status" = Some (VStr "Resolved")
  ∧ scenario_C !! "status" = Some (VStr "New")
  ∧ scenario_A !! "timestamp" = Some (VTime (at_time 10))
  ∧ scenario_B !! "timestamp" = Some (VTime (at_time 11))
  ∧ scenario_C !! "timestamp" = Some (VTime (at_time 9)).
Proof. repeat split; reflexivity. Qed.

(** * Further properties *)

(** ** The store only grows *)

Lemma same_identity_refl inc : same_identity inc inc.
Proof. by intros k _ _ _. Qed.

Lemma same_identity_trans a b c :
  same_identity a b → same_identity b c → same_identity a c.
Proof. intros Hab Hbc k H1 H2 H3. by rewrite Hbc, Hab. Qed.

Lemma same_identity_all_refl (l : list Incident) : Forall2 same_identity l l.
Proof. induction l; constructor; [apply same_identity_refl|done]. Qed.

Lemma factory_made_same_identity old new :
  same_identity old new → factory_made old → factory_made new.
Proof.
  intros Hsame [(ty & loc & score & ? & ? & ? & ? & ?) ? (i & ? & ?) (t & ?)].
  split; rewrite ?Hsame by done; eauto 10.
Qed.

Lemma substring_0_length n s : (String.length (String.substring 0 n s) ≤ n)%nat.
Proof.
  revert s. induction n as [|n IH]; intros [|c s]; simpl; try lia.
  specialize (IH s). lia.
Qed.

Lemma newly_logged_made inc : newly_logged inc → factory_made inc.
Proof.
  intros (ty & loc & score & uuid & now & now' & -> & Hsrc). split.
  - exists ty, loc, score. repeat split; done.
  - reflexivity.
  - eexists. split; [reflexivity|]. apply substring_0_length.
  - eexists. reflexivity.
Qed.

Lemma for_first_match_identity {A} incident_id
    (body : Incident → result (Incident * A)) l l' a :
  (∀ inc inc' b, body inc = Ok (inc', b) → same_identity inc inc') →
  for_first_match incident_id body l = Ok (l', a) →
  Forall2 same_identity l l'.
Proof.
  intros Hbody. revert l' a. induction l as [|inc l IH]; intros l' a; simpl.
  { intros [= <- <-]. constructor. }
  unfold getitem. destruct (inc !! "id") as [i|]; [|done]. simpl.
  destruct (decide (i = incident_id)) as [->|Hne].
  - destruct (body inc) as [[inc' b]|] eqn:Hb; [|done]. simpl.
    intros [= <- <-]. constructor; [by eapply Hbody|apply same_identity_all_refl].
  - destruct (for_first_match incident_id body l) as [[l0 a0]|]; [|done]. simpl.
    intros [= <- <-]. constructor; [apply same_identity_refl|by eapply IH].
Qed.

Lemma notify_body_identity incident_id now (inc inc' : Incident) c :
  notify_body incident_id now inc = Ok (inc', c) → same_identity inc inc'.
Proof.
  unfold notify_body, getitem.
  destruct (inc !! "notifications_sent") as [[|n| |]|]; try done. simpl.
  rewrite lookup_insert_eq. simpl. rewrite lookup_insert_ne by done.
  destruct (inc !! "notification_log") as [[| | |l]|]; try done. simpl.
  intros [= <- <-] k H1 H2 H3. by rewrite !lookup_insert_ne.
Qed.

Lemma render_cards_store click (l : list Incident) ss ss' b :
  render_cards click l ss = Ok (ss', b) →
  ∃ a, ss' = set_active_incident_id a ss.
Proof.
  revert click. induction l as [|inc l IH]; intros click; simpl.
  { intros [= <- <-]. exists (active_incident_id ss). by destruct ss. }
  unfold getitem.
  destruct (inc !! "type"); [|done]. simpl.
  destruct (inc !! "location"); [|done]. simpl.
  destruct (inc !! "status") as [s|]; [|done]. simpl.
  destruct (status_color_get s); [|done]. simpl.
  destruct (inc !! "id") as [i|]; [|done]. simpl.
  destruct click as [[|c]|]; [|apply IH|apply IH].
  intros [= <- <-]. eauto.
Qed.

Lemma incident_list_panel_store click ss ss' b :
  incident_list_panel click ss = Ok (ss', b) →
  ∃ a, ss' = set_active_incident_id a ss.
Proof.
  unfold incident_list_panel.
  destruct (sorted_incidents (incidents ss)) as [l|]; [|done]. simpl.
  apply render_cards_store.
Qed.

(** What a script run does to the session: it changes the selection at
    most, or it logs the live incident, or it logs the incident of an
    uploaded file. *)
Lemma main_effect click f o ss ss' out :
  main click f o ss = Ok (ss', out) →
  (∃ a, ss' = set_active_incident_id a ss)
  ∨ (violation_detected ss = true ∧ email_sent_for_last_detection ss = false
     ∧ ss' = {| incidents := incidents ss ++ [live_incident o];
                active_incident_id := live_incident o !! "id";
                risk_zones := risk_zones ss;
                violation_detected := false;
                email_sent_for_last_detection := true |})
  ∨ (∃ (inc : Incident) i,
       ss' = {| incidents := incidents ss ++ [inc];
                active_incident_id := Some i;
                risk_zones := risk_zones ss;
                violation_detected := violation_detected ss;
                email_sent_for_last_detection := email_sent_for_last_detection ss |}
       ∧ inc !! "id" = Some i
       ∧ newly_logged inc
       ∧ inc !! "type" ≠ Some (VStr "Confirmed Live Violence")).
Proof.
  unfold main, live_check.
  destruct (violation_detected ss && negb (email_sent_for_last_detection ss))
    eqn:Hfire.
  { rewrite log_and_alert_generated. simpl. intros [= <- <-].
    apply andb_true_iff in Hfire as [Hv He%negb_true_iff]. right. left. done. }
  simpl. destruct (incident_list_panel click ss) as [[ss1 b]|] eqn:Hl; [|done].
  simpl. apply incident_list_panel_store in Hl as [a ->].
  destruct b; [intros [= <- <-]; left; by eauto|].
  unfold file_analysis_panel.
  destruct f as [f|]; [|intros [= <- <-]; left; by eauto].
  repeat case_decide; [| |intros [= <- <-]; left; by eauto].
  all: unfold process_uploaded_image, process_uploaded_video,
    image_analysis, video_analysis.
  all: destruct (button f); [|try case_decide; intros [= <- <-]; left; by eauto].
  all: case_decide; [|intros [= <- <-]; left; by eauto].
  all: rewrite log_and_alert_generated; simpl; intros [= <- <-].
  all: right; right; do 2 eexists; split; [reflexivity|].
  all: split; [reflexivity|]; split; [|done].
  all: do 6 eexists; split; [reflexivity|]; constructor.
  all: pose proof (randint_range 70 100 (rnd o));
    pose proof (randint_range 85 99 (rnd o)); lia.
Qed.

Lemma newly_logged_live o : newly_logged (live_incident o).
Proof. do 6 eexists. split; [reflexivity|]. constructor. Qed.


Lemma recv_session d ss :
  (recv d ss).1.2 = ss ∨ (recv d ss).1.2 = set_violation_detected true ss.
Proof.
  unfold recv. repeat case_decide; simpl;
    destruct (violation_detected ss), (detection_triggered d); simpl; auto.
Qed.

(** What one event does to the session: the risk zones stay, the mark of
    the sent alert is not withdrawn, and the store keeps its incidents
    and gains at most one. *)
Lemma step_effect e w w' :
  step e w = Ok w' →
  risk_zones (session w') = risk_zones (session w)
  ∧ (email_sent_for_last_detection (session w) = true →
     email_sent_for_last_detection (session w') = true)
  ∧ ∃ l1 l2, incidents (session w') = l1 ++ l2
      ∧ Forall2 same_identity (incidents (session w)) l1
      ∧ Forall newly_logged l2 ∧ (length l2 ≤ 1)%nat.
Proof.
  destruct e as [| |click f o|incident_id s|incident_id now]; simpl.
  - intros [= <-]. simpl. split; [done|]. split; [done|].
    exists (incidents (session w)), []. rewrite app_nil_r.
    split; [done|]. split; [apply same_identity_all_refl|]. split; [constructor|simpl; lia].
  - pose proof (recv_session (video_processor w) (session w)) as Hr.
    destruct (recv _ _) as [[d ss] ov]. simpl in Hr. intros [= <-]. simpl.
    assert (risk_zones ss = risk_zones (session w)
            ∧ email_sent_for_last_detection ss
              = email_sent_for_last_detection (session w)
            ∧ incidents ss = incidents (session w)) as (-> & -> & ->)
      by (by destruct Hr as [->| ->]).
    split; [done|]. split; [done|].
    exists (incidents (session w)), []. rewrite app_nil_r.
    split; [done|]. split; [apply same_identity_all_refl|]. split; [constructor|simpl; lia].
  - destruct (main click f o (session w)) as [[ss out]|] eqn:Hm; [|done].
    simpl. intros [= <-]. simpl.
    apply main_effect in Hm
      as [[a ->]|[(Hv & He & ->)|(inc & i & -> & Hi & Hnew & Hty)]]; simpl.
    + split; [done|]. split; [done|].
      exists (incidents (session w)), []. rewrite app_nil_r.
      split; [done|]. split; [apply same_identity_all_refl|].
      split; [constructor|simpl; lia].
    + split; [done|]. split; [done|].
      exists (incidents (session w)), [live_incident o].
      split; [done|]. split; [apply same_identity_all_refl|].
      split; [apply Forall_singleton, newly_logged_live|simpl; lia].
    + split; [done|]. split; [done|].
      exists (incidents (session w)), [inc].
      split; [done|]. split; [apply same_identity_all_refl|].
      split; [by apply Forall_singleton|simpl; lia].
  - unfold handle_update.
    destruct (for_first_match _ _ _) as [[l a]|] eqn:Hf; [|done].
    simpl. intros [= <-]. simpl. split; [done|]. split; [done|].
    exists l, []. rewrite app_nil_r. split; [done|].
    split; [|split; [constructor|simpl; lia]].
    eapply for_first_match_identity; [|exact Hf].
    intros inc inc' b [= <- <-] k Hk _ _. by rewrite lookup_insert_ne.
  - unfold send_notification_action.
    destruct (for_first_match _ _ _) as [[l a]|] eqn:Hf; [|done].
    simpl. intros [= <-]. simpl. split; [done|]. split; [done|].
    exists l, []. rewrite app_nil_r. split; [done|].
    split; [|split; [constructor|simpl; lia]].
    eapply for_first_match_identity; [|exact Hf].
    intros inc inc' b. apply notify_body_identity.
Qed.

Lemma grown_from_refl l : grown_from l l.
Proof.
  exists l, []. rewrite app_nil_r.
  split; [done|]. split; [apply same_identity_all_refl|constructor].
Qed.

Lemma grown_from_trans l l' l'' :
  grown_from l l' → grown_from l' l'' → grown_from l l''.
Proof.
  intros (l1 & l2 & -> & H1 & H2) (m1 & m2 & -> & Hm1 & Hm2).
  apply Forall2_app_inv_l in Hm1 as (m1a & m1b & Ha & Hb & ->).
  exists m1a, (m1b ++ m2). split; [by rewrite app_assoc|]. split.
  - clear -H1 Ha. revert m1a Ha.
    induction H1 as [|x y l l1 Hxy _ IH]; intros m1a Ha.
    + inversion Ha. constructor.
    + inversion Ha as [|? z ? m Hyz Hrest]; subst. constructor; [|by apply IH].
      by eapply same_identity_trans.
  - apply Forall_app. split; [|done].
    clear -H2 Hb. induction Hb as [|x y l2 m1b Hxy _ IH]; [constructor|].
    apply Forall_cons in H2 as [Hx H2]. constructor; [|by apply IH].
    by eapply factory_made_same_identity.
Qed.

Lemma run_grown tr w w' :
  run tr w = Ok w' →
  grown_from (incidents (session w)) (incidents (session w')).
Proof.
  revert w. induction tr as [|e tr IH]; intros w; simpl.
  { intros [= <-]. apply grown_from_refl. }
  destruct (step e w) as [w1|] eqn:Hs; [|done]. simpl. intros Hrun.
  eapply grown_from_trans; [|by apply IH].
  apply step_effect in Hs as (_ & _ & l1 & l2 & -> & H1 & H2 & _).
  exists l1, l2. split; [done|]. split; [done|].
  eapply Forall_impl; [exact H2|]. apply newly_logged_made.
Qed.

(** X1. Whatever happens to a store, frames, script runs, status updates
    and notifications, no incident is removed or moved: the store after
    is at least as long, and the incident at each position is the one
    that was there, with the same value under every key other than the
    status, the counter and the log (id, type, location, timestamp, score,
    wellness counter and description never change). *)
Theorem store_only_grows tr w w' :
  run tr w = Ok w' →
  (length (incidents (session w)) ≤ length (incidents (session w')))%nat
  ∧ ∀ i (old : Incident), incidents (session w) !! i = Some old →
      ∃ new : Incident,
        incidents (session w') !! i = Some new
        ∧ ∀ k, k ≠ "status" → k ≠ "notifications_sent" → k ≠ "notification_log" →
            new !! k = old !! k.
Proof.
  intros (l1 & l2 & -> & H1 & _)%run_grown.
  pose proof (Forall2_length _ _ _ H1) as Hlen. split.
  - rewrite length_app. lia.
  - intros i old Hold.
    destruct (Forall2_lookup_l _ _ _ _ _ H1 Hold) as (new & Hnew & Hsame).
    exists new. split; [|exact Hsame].
    by apply lookup_app_l_Some.
Qed.

Lemma store_only_grows_witness :
  let w := {| session := set_incidents [scenario_A; scenario_B] initialize_state;
              video_processor := detector_init |} in
  let w' := {| session :=
                 set_active_incident_id (Some (VStr "aaaaaaaa"))
                   (set_incidents [<[ "status" := VStr "Closed" ]> scenario_A;
                                   scenario_B] initialize_state);
               video_processor := detector_after 1 |} in
  (length (incidents (session w)) ≤ length (incidents (session w')))%nat
  ∧ ∀ i (old : Incident), incidents (session w) !! i = Some old →
      ∃ new : Incident,
        incidents (session w') !! i = Some new
        ∧ ∀ k, k ≠ "status" → k ≠ "notifications_sent" → k ≠ "notification_log" →
            new !! k = old !! k.
Proof.
  intros w w'.
  apply (store_only_grows [SetStatus (VStr "aaaaaaaa") "Closed"; Frame] w w').
  reflexivity.
Defined.

Lemma run_factory_made tr :
  ∃ w, run tr world_init = Ok w
    ∧ Forall factory_made (incidents (session w)).
Proof.
  destruct (run_inv tr world_init session_inv_init) as (w & Hrun & _).
  exists w. split; [done|].
  apply run_grown in Hrun as (l1 & l2 & -> & H1 & H2).
  inversion H1. done.
Qed.

(** X2. In every state the dashboard reaches, the score of every incident
    is the one its detection path gave it: 95 for a live incident,
    between 80 and 100 for an image, between 85 and 99 for a video; no
    incident has a score below 80, and no incident has another type. *)
Theorem logged_scores_in_range tr :
  ∃ w, run tr world_init = Ok w
    ∧ Forall (λ inc : Incident, ∃ ty score,
        inc !! "type" = Some (VStr ty)
        ∧ inc !! "deescalation_score" = Some (VInt score)
        ∧ (ty = "Confirmed Live Violence" ∧ score = 95
           ∨ ty = "Image Upload Violence" ∧ 80 ≤ score ≤ 100
           ∨ ty = "Video Footage Violence" ∧ 85 ≤ score ≤ 99))
      (incidents (session w)).
Proof.
  destruct (run_factory_made tr) as (w & Hrun & Hmade).
  exists w. split; [done|]. eapply Forall_impl; [exact Hmade|].
  intros inc [(ty & loc & score & Hty & _ & Hscore & _ & Hsrc) _ _ _].
  exists ty, score. split; [done|]. split; [done|].
  destruct Hsrc; auto.
Qed.

(** X3. In every state the dashboard reaches, every incident still has
    the description the factory composed from its type, location and
    score, two wellness checks required, and an id of at most eight
    characters: no operation rewrites them. *)
Theorem factory_fields_persist tr :
  ∃ w, run tr world_init = Ok w
    ∧ Forall (λ inc : Incident, ∃ ty loc score i,
        inc !! "type" = Some (VStr ty)
        ∧ inc !! "location" = Some (VStr loc)
        ∧ inc !! "deescalation_score" = Some (VInt score)
        ∧ inc !! "description"
          = Some (VStr ("Deep Learning Model detected **" +:+ ty +:+ "** at "
                        +:+ loc +:+ " with " +:+ pretty score +:+ "% confidence."))
        ∧ inc !! "wellness_required" = Some (VInt 2)
        ∧ inc !! "id" = Some (VStr i) ∧ (String.length i ≤ 8)%nat)
      (incidents (session w)).
Proof.
  destruct (run_factory_made tr) as (w & Hrun & Hmade).
  exists w. split; [done|]. eapply Forall_impl; [exact Hmade|].
  intros inc [(ty & loc & score & Hty & Hloc & Hscore & Hdesc & _) Hw (i & Hi & Hlen) _].
  exists ty, loc, score, i. done.
Qed.

(** X4. No event changes the risk zones: after any run they are the ones
    the run started with. *)
Theorem risk_zones_never_change tr w w' :
  run tr w = Ok w' →
  risk_zones (session w') = risk_zones (session w).
Proof.
  revert w. induction tr as [|e tr IH]; intros w; simpl.
  { by intros [= <-]. }
  destruct (step e w) as [w1|] eqn:Hs; [|done]. simpl. intros Hrun.
  apply step_effect in Hs as (<- & _). by apply IH.
Qed.

Lemma risk_zones_never_change_witness :
  let w' := {| session := set_active_incident_id (Some (VStr "x")) initialize_state;
               video_processor := detector_after 1 |} in
  risk_zones (session w') = risk_zones (session world_init).
Proof.
  intros w'.
  apply (risk_zones_never_change [Stream; Frame; SetStatus (VStr "x") "Closed"]
           world_init w').
  reflexivity.
Defined.

Lemma run_email_sent tr w w' :
  run tr w = Ok w' →
  email_sent_for_last_detection (session w) = true →
  email_sent_for_last_detection (session w') = true.
Proof.
  revert w. induction tr as [|e tr IH]; intros w; simpl.
  { by intros [= <-]. }
  destruct (step e w) as [w1|] eqn:Hs; [|done]. simpl. intros Hrun He.
  apply step_effect in Hs as (_ & Hmono & _). eauto.
Qed.

(** X5. The live alert is sent once in the life of a session: once a
    live incident is in the store it stays the only one, whatever comes
    after, a new camera stream and a new detection included, because the
    mark of the sent alert is never withdrawn. *)
Theorem live_incident_logged_once tr tr' :
  ∃ w w', run tr world_init = Ok w
    ∧ run (tr ++ tr') world_init = Ok w'
    ∧ (email_sent_for_last_detection (session w) = true →
       email_sent_for_last_detection (session w') = true)
    ∧ (length (live_incidents (incidents (session w)))
       ≤ length (live_incidents (incidents (session w'))) ≤ 1)%nat.
Proof.
  destruct (run_inv tr world_init session_inv_init) as (w & Hrun & Hinv).
  destruct (run_inv tr' w Hinv) as (w' & Hrun' & Hinv').
  exists w, w'. split; [done|]. split; [by rewrite run_app, Hrun|].
  pose proof (run_email_sent _ _ _ Hrun') as Hmono. split; [done|].
  destruct Hinv as [_ ->], Hinv' as [_ ->].
  destruct (email_sent_for_last_detection (session w)).
  - rewrite Hmono by done. lia.
  - destruct (email_sent_for_last_detection (session w')); lia.
Qed.

(** X6. A pending live detection pre-empts the operator: the script run
    that logs the live incident stops there, so a click on a card or an
    uploaded file in that run has no effect. *)
Theorem live_alert_preempts_input click f o ss :
  violation_detected ss = true →
  email_sent_for_last_detection ss = false →
  main click f o ss = main None None o ss
  ∧ ∃ out, main click f o ss
      = Ok ({| incidents := incidents ss ++ [live_incident o];
               active_incident_id := Some (VStr (String.substring 0 8 (uuid o)));
               risk_zones := risk_zones ss;
               violation_detected := false;
               email_sent_for_last_detection := true |}, out).
Proof.
  intros Hv He.
  destruct (main_fires click f o ss Hv He) as [out Hm].
  destruct (main_fires None None o ss Hv He) as [out' Hm'].
  split; [|by eauto]. rewrite Hm, Hm'. do 2 f_equal.
  unfold main, live_check in Hm, Hm'. rewrite Hv, He in Hm, Hm'. simpl in Hm, Hm'.
  rewrite log_and_alert_generated in Hm, Hm'. simpl in Hm, Hm'. congruence.
Qed.

Lemma live_alert_preempts_input_witness :
  let ss := set_violation_detected true initialize_state in
  let f := Some (mk_uploaded "a.jpg" "image/jpeg" true) in
  main (Some 0%nat) f oracle_0 ss = main None None oracle_0 ss
  ∧ ∃ out, main (Some 0%nat) f oracle_0 ss
      = Ok ({| incidents := incidents ss ++ [live_incident oracle_0];
               active_incident_id :=
                 Some (VStr (String.substring 0 8 (uuid oracle_0)));
               risk_zones := risk_zones ss;
               violation_detected := false;
               email_sent_for_last_detection := true |}, out).
Proof.
  apply live_alert_preempts_input; reflexivity.
Defined.

(** X7. A script run leaves the store as it is or appends exactly one
    incident; the appended incident is New, has no manual notification,
    has the one log entry of its alert, and is the selected incident
    when the run ends. *)
Theorem script_run_logs_at_most_one click f o ss ss' out :
  main click f o ss = Ok (ss', out) →
  incidents ss' = incidents ss
  ∨ ∃ (inc : Incident) e,
      incidents ss' = incidents ss ++ [inc]
      ∧ active_incident_id ss' = inc !! "id"
      ∧ inc !! "status" = Some (VStr "New")
      ∧ inc !! "notifications_sent" = Some (VInt 0)
      ∧ inc !! "notification_log" = Some (VLog [e])
      ∧ recipient e = "Email Alert System".
Proof.
  intros [[a ->]|[(Hv & He & ->)|(inc & i & -> & Hi & Hnew & Hty)]]%main_effect.
  - by left.
  - right. eexists _, _. split; [reflexivity|]. repeat split; reflexivity.
  - right. destruct Hnew as (ty & loc & score & uuid & now & now' & -> & _).
    eexists _, _. split; [reflexivity|]. split; [by rewrite Hi|].
    repeat split; reflexivity.
Qed.

Lemma script_run_logs_at_most_one_witness :
  let ss := set_incidents [scenario_B] initialize_state in
  let inc := <[ "notification_log" := VLog [email_entry (at_time 10)] ]>
               (generate_incident "Image Upload Violence" "File: a.jpg" 85
                  (uuid oracle_0) (at_time 10)) in
  let ss' := set_active_incident_id (Some (VStr "0123abcd"))
               (set_incidents [scenario_B; inc] initialize_state) in
  incidents ss' = incidents ss
  ∨ ∃ (inc : Incident) e,
      incidents ss' = incidents ss ++ [inc]
      ∧ active_incident_id ss' = inc !! "id"
      ∧ inc !! "status" = Some (VStr "New")
      ∧ inc !! "notifications_sent" = Some (VInt 0)
      ∧ inc !! "notification_log" = Some (VLog [e])
      ∧ recipient e = "Email Alert System".
Proof.
  intros ss inc ss'.
  eapply (script_run_logs_at_most_one None
            (Some (mk_uploaded "a.jpg" "image/jpeg" true)) oracle_0 ss ss').
  reflexivity.
Defined.

(** ** The detector *)

(** X8. A frame never takes anything back: it does not lower the frame
    counter, does not release the latch of the detector and does not
    clear [violation_detected]; of the session it touches nothing but
    that flag, and once the latch is set it does not touch the session at
    all. *)
Theorem recv_never_resets d ss :
  let d' := (recv d ss).1.1 in
  let ss' := (recv d ss).1.2 in
  frame_counter d ≤ frame_counter d' ≤ frame_counter d + 1
  ∧ (detection_triggered d = true → detection_triggered d' = true ∧ ss' = ss)
  ∧ (violation_detected ss = true → ss' = ss)
  ∧ incidents ss' = incidents ss
  ∧ active_incident_id ss' = active_incident_id ss
  ∧ risk_zones ss' = risk_zones ss
  ∧ email_sent_for_last_detection ss' = email_sent_for_last_detection ss.
Proof.
  unfold recv.
  destruct (decide (frame_counter d < 100)); simpl;
    destruct (decide _) as [[_ Ht]|_]; simpl;
    destruct (violation_detected ss) eqn:Hv, (detection_triggered d) eqn:Hd;
    simpl; repeat split; intros; try done; try lia.
Qed.

Lemma recv_detector_after n ss :
  recv (detector_after n) ss
  = (detector_after (S n),
     if decide (n = 90%nat) then
       if violation_detected ss then ss else set_violation_detected true ss
     else ss,
     overlay_after n).
Proof.
  unfold overlay_after.
  destruct (decide (n < 90)%nat) as [Hlt|Hge].
  - rewrite recv_scanning
      by (simpl; first [lia | apply bool_decide_eq_false_2; lia]).
    rewrite decide_False by lia. unfold detector_after. simpl.
    rewrite (bool_decide_eq_false_2 (91 ≤ S n)%nat) by lia.
    do 3 f_equal; lia.
  - destruct (decide (n = 90%nat)) as [->|Hne].
    + unfold recv. simpl. by destruct (violation_detected ss).
    + rewrite recv_alert_active by (simpl; apply bool_decide_eq_true_2; lia).
      unfold detector_after. simpl.
      rewrite !(bool_decide_eq_true_2 (91 ≤ _)%nat) by lia.
      do 2 f_equal. case_decide; f_equal; lia.
Qed.

(** X9. The frames of a stream, in order.  The detector starts as the
    detector after no frame.  The frame after [n] frames shows the score
    [n] while [n < 90]; the 91st frame ([n = 90]) shows the detection,
    sets the latch and raises [violation_detected]; every later frame
    shows the active alert and leaves the session alone.  The counter
    stops at 100 and the score at 99. *)
Theorem detector_frame_sequence n ss :
  detector_init = detector_after 0
  ∧ recv (detector_after n) ss
    = (detector_after (S n),
       if decide (n = 90%nat) then
         if violation_detected ss then ss else set_violation_detected true ss
       else ss,
       if decide (n < 90)%nat then Scanning (Z.of_nat n)
       else if decide (n = 90%nat) then ViolenceDetected
       else AlertActive)
  ∧ (100 ≤ n → detector_after (S n) = detector_after n)%nat
  ∧ violence_score (detector_after n) ≤ 99.
Proof.
  split; [reflexivity|]. split; [apply recv_detector_after|]. split.
  - intros Hn. unfold detector_after.
    rewrite !(bool_decide_eq_true_2 (91 ≤ _)%nat) by lia. f_equal; lia.
  - simpl. lia.
Qed.

Lemma run_detector_after tr :
  ∃ w n, run tr world_init = Ok w ∧ video_processor w = detector_after n.
Proof.
  assert (∀ w, session_inv (session w) →
            (∃ n, video_processor w = detector_after n) →
            ∃ w' n, run tr w = Ok w' ∧ video_processor w' = detector_after n)
    as Hgen.
  { induction tr as [|e tr IH]; intros w Hinv [n Hn]; simpl; [by eauto|].
    destruct (step_inv e w Hinv) as (w1 & Hs & Hinv1). rewrite Hs. simpl.
    apply IH; [done|].
    destruct e as [| |click f o|incident_id s|incident_id now]; simpl in Hs.
    - injection Hs as <-. by exists 0%nat.
    - rewrite Hn, recv_detector_after in Hs. injection Hs as <-. by exists (S n).
    - destruct (main _ _ _ _) as [[??]|]; [|done]. injection Hs as <-. by exists n.
    - destruct (handle_update _ _ _ _); [|done]. injection Hs as <-. by exists n.
    - destruct (send_notification_action _ _ _) as [[??]|]; [|done].
      injection Hs as <-. by exists n. }
  apply Hgen; [apply session_inv_init|by exists 0%nat].
Qed.

(** X10. In every state the dashboard reaches, camera restarts included,
    the score of the detector is between 0 and 99 (it never reaches 100),
    the frame counter is between 0 and 100 and one ahead of the score
    once a frame has been seen, and the latch is set exactly when the
    score is at least 90. *)
Theorem detector_bounds tr :
  ∃ w, run tr world_init = Ok w
    ∧ 0 ≤ violence_score (video_processor w) ≤ 99
    ∧ 0 ≤ frame_counter (video_processor w) ≤ 100
    ∧ violence_score (video_processor w)
      = Z.max 0 (frame_counter (video_processor w) - 1)
    ∧ (detection_triggered (video_processor w) = true
       ↔ 90 ≤ violence_score (video_processor w)).
Proof.
  destruct (run_detector_after tr) as (w & n & Hrun & Hn).
  exists w. split; [done|]. rewrite Hn. simpl.
  split; [lia|]. split; [lia|]. split; [lia|].
  rewrite bool_decide_eq_true. lia.
Qed.

(** ** Session initialisation *)

(** X11. [initialize_state] gives every missing key its default and
    keeps every key that is there: afterwards the session has all five
    keys, a key that was set has the value it had (the incidents
    survive a rerun), and a second call changes nothing.  On an empty
    session it gives the initial session. *)
Theorem initialize_state_keeps_keys rs :
  ∃ ss, initialize_state_on rs = raw_of ss
    ∧ (∀ l, raw_incidents rs = Some l → incidents ss = l)
    ∧ (∀ a, raw_active_incident_id rs = Some a → active_incident_id ss = a)
    ∧ (∀ z, raw_risk_zones rs = Some z → risk_zones ss = z)
    ∧ (∀ b, raw_violation_detected rs = Some b → violation_detected ss = b)
    ∧ (∀ b, raw_email_sent_for_last_detection rs = Some b →
         email_sent_for_last_detection ss = b)
    ∧ initialize_state_on (initialize_state_on rs) = initialize_state_on rs
    ∧ initialize_state_on (mk_raw None None None None None)
      = raw_of initialize_state.
Proof.
  destruct rs as [[l|] [a|] [z|] [v|] [e|]]; eexists (mk_session _ _ _ _ _);
    (split; [reflexivity|]); simpl; repeat split; congruence.
Qed.

(** ** The callbacks on a known id *)

Lemma handle_update_sets_and_selects_aux incident_id key v ss pre
    (inc : Incident) post :
  incidents ss = pre ++ inc :: post →
  id_absent incident_id pre →
  inc !! "id" = Some incident_id →
  handle_update incident_id key v ss
  = Ok {| incidents := pre ++ <[ key := v ]> inc :: post;
          active_incident_id := Some incident_id;
          risk_zones := risk_zones ss;
          violation_detected := violation_detected ss;
          email_sent_for_last_detection := email_sent_for_last_detection ss |}.
Proof.
  intros Hss Hpre Hid. unfold handle_update. rewrite Hss.
  by rewrite (for_first_match_first _ _ pre inc post (<[ key := v ]> inc) ()).
Qed.

(** X12. Called with the id of an incident of the store, the status
    update writes the value under the key in the first incident with
    that id, makes that id the active one and changes nothing else:
    every other key of that incident, every other incident (a later one
    with the same id included) and the rest of the session stay. *)
Theorem handle_update_sets_and_selects incident_id key v ss pre
    (inc : Incident) post :
  incidents ss = pre ++ inc :: post →
  id_absent incident_id pre →
  inc !! "id" = Some incident_id →
  handle_update incident_id key v ss
  = Ok {| incidents := pre ++ <[ key := v ]> inc :: post;
          active_incident_id := Some incident_id;
          risk_zones := risk_zones ss;
          violation_detected := violation_detected ss;
          email_sent_for_last_detection := email_sent_for_last_detection ss |}.
Proof. apply handle_update_sets_and_selects_aux. Qed.

Lemma handle_update_sets_and_selects_witness :
  let ss := set_incidents [scenario_B; scenario_A; scenario_C; scenario_A]
              initialize_state in
  handle_update (VStr "aaaaaaaa") "status" (VStr "Investigating") ss
  = Ok {| incidents :=
            [scenario_B] ++ <[ "status" := VStr "Investigating" ]> scenario_A
                            :: [scenario_C; scenario_A];
          active_incident_id := Some (VStr "aaaaaaaa");
          risk_zones := risk_zones ss;
          violation_detected := violation_detected ss;
          email_sent_for_last_detection := email_sent_for_last_detection ss |}.
Proof.
  apply handle_update_sets_and_selects.
  - reflexivity.
  - repeat constructor. eexists. split; [reflexivity | discriminate].
  - reflexivity.
Defined.

Lemma for_first_match_insert_again incident_id key v (l l' : list Incident) a :
  key ≠ "id" →
  for_first_match incident_id
    (λ incident : Incident, Ok (<[ key := v ]> incident, ())) l = Ok (l', a) →
  for_first_match incident_id
    (λ incident : Incident, Ok (<[ key := v ]> incident, ())) l' = Ok (l', a).
Proof.
  intros Hkey. revert l' a. induction l as [|inc l IH]; intros l' a; simpl.
  { by intros [= <- <-]. }
  unfold getitem. destruct (inc !! "id") as [i|] eqn:Hi; [|done]. simpl.
  destruct (decide (i = incident_id)) as [->|Hne].
  - intros [= <- <-]. simpl. unfold getitem.
    rewrite lookup_insert_ne, Hi by done. simpl.
    rewrite decide_True by done. by rewrite insert_insert_eq.
  - destruct (for_first_match _ _ l) as [[l0 a0]|] eqn:Hl; [|done]. simpl.
    intros [= <- <-]. simpl. unfold getitem. rewrite Hi. simpl.
    rewrite decide_False by done. by rewrite (IH l0 a0).
Qed.

(** X13. Setting a status twice is the same as setting it once: when a
    status update has returned, the same update on the session it left
    returns that session again.  This holds for every key but the id
    itself. *)
Theorem handle_update_idempotent incident_id key v ss ss' :
  key ≠ "id" →
  handle_update incident_id key v ss = Ok ss' →
  handle_update incident_id key v ss' = Ok ss'.
Proof.
  intros Hkey. unfold handle_update.
  destruct (for_first_match _ _ (incidents ss)) as [[l a]|] eqn:Hl; [|done].
  simpl. intros [= <-]. simpl.
  by rewrite (for_first_match_insert_again _ _ _ _ _ _ Hkey Hl).
Qed.

Lemma handle_update_idempotent_witness :
  let ss' := set_active_incident_id (Some (VStr "aaaaaaaa"))
               (set_incidents [scenario_B; <[ "status" := VStr "Resolved" ]> scenario_A]
                  initialize_state) in
  handle_update (VStr "aaaaaaaa") "status" (VStr "Resolved") ss' = Ok ss'.
Proof.
  intros ss'.
  apply (handle_update_idempotent _ _ _
           (set_incidents [scenario_B; scenario_A] initialize_state)).
  - discriminate.
  - reflexivity.
Defined.

(** ** Malformed incidents *)

Lemma for_first_match_raises {A} incident_id
    (body : Incident → result (Incident * A)) pre (inc : Incident) post e :
  id_absent incident_id pre →
  (inc !! "id" = None ∧ e = KeyError "id"
   ∨ inc !! "id" = Some incident_id ∧ body inc = Raise e) →
  for_first_match incident_id body (pre ++ inc :: post) = Raise e.
Proof.
  intros Hpre Hinc.
  induction Hpre as [|x pre (i & Hi & Hne) _ IH]; simpl.
  - unfold getitem. destruct Hinc as [[-> ->]|[-> Hbody]]; simpl; [done|].
    rewrite decide_True by done. by rewrite Hbody.
  - known_item Hi. rewrite decide_False by done. by rewrite IH.
Qed.

(** X14. The alert dispatcher does raise when the incident has no log to
    append to: the append is outside the [try], so a missing
    [notification_log] raises [KeyError] and one that is not a list
    raises [AttributeError], whether the send itself succeeded or
    failed. *)
Theorem send_alert_email_needs_log fault now (inc : Incident) :
  (∀ l, inc !! "notification_log" ≠ Some (VLog l)) →
  send_alert_email fault now inc
  = Raise (match inc !! "notification_log" with
           | None => KeyError "notification_log"
           | Some _ => AttributeError
           end).
Proof.
  intros Hlog. unfold send_alert_email, getitem.
  destruct (inc !! "notification_log") as [[| | |l]|]; simpl; try done.
  by destruct (Hlog l).
Qed.

Lemma send_alert_email_needs_log_witness :
  send_alert_email None (at_time 10) (delete "notification_log" scenario_A)
  = Raise (match delete "notification_log" scenario_A !! "notification_log" with
           | None => KeyError "notification_log"
           | Some _ => AttributeError
           end).
Proof.
  apply send_alert_email_needs_log. intros l. vm_compute. discriminate.
Defined.

(** X15. The loop of the callbacks reads the id of every incident up to
    the first match: if an incident without an id comes before any
    match, the status update and the notify action raise [KeyError],
    even when a later incident has the id. *)
Theorem callbacks_need_ids incident_id key v now ss pre (inc : Incident) post :
  incidents ss = pre ++ inc :: post →
  id_absent incident_id pre →
  inc !! "id" = None →
  handle_update incident_id key v ss = Raise (KeyError "id")
  ∧ send_notification_action incident_id now ss = Raise (KeyError "id").
Proof.
  intros Hss Hpre Hid. unfold handle_update, send_notification_action.
  rewrite Hss. by rewrite !(for_first_match_raises _ _ pre inc post (KeyError "id"))
    by (done || by left).
Qed.

Lemma callbacks_need_ids_witness :
  let ss := set_incidents [scenario_B; delete "id" scenario_C; scenario_A]
              initialize_state in
  handle_update (VStr "aaaaaaaa") "status" (VStr "Closed") ss = Raise (KeyError "id")
  ∧ send_notification_action (VStr "aaaaaaaa") (at_time 12) ss
    = Raise (KeyError "id").
Proof.
  apply (callbacks_need_ids _ _ _ _ _ [scenario_B] (delete "id" scenario_C)
           [scenario_A]).
  - reflexivity.
  - repeat constructor. eexists. split; [reflexivity | discriminate].
  - reflexivity.
Defined.

(** X16. The notify action needs a counter it can increment: when the
    first incident with the id has no [notifications_sent] it raises
    [KeyError], and when the counter is not an integer it raises
    [TypeError]. *)
Theorem notify_needs_counter incident_id now ss pre (inc : Incident) post :
  incidents ss = pre ++ inc :: post →
  id_absent incident_id pre →
  inc !! "id" = Some incident_id →
  (∀ n, inc !! "notifications_sent" ≠ Some (VInt n)) →
  send_notification_action incident_id now ss
  = Raise (match inc !! "notifications_sent" with
           | None => KeyError "notifications_sent"
           | Some _ => TypeError
           end).
Proof.
  intros Hss Hpre Hid Hn. unfold send_notification_action. rewrite Hss.
  rewrite (for_first_match_raises _ _ pre inc post
             (match inc !! "notifications_sent" with
              | None => KeyError "notifications_sent"
              | Some _ => TypeError
              end)); [done|done|].
  right. split; [done|]. unfold notify_body, getitem.
  destruct (inc !! "notifications_sent") as [[|n| |]|]; simpl; try done.
  by destruct (Hn n).
Qed.

Lemma notify_needs_counter_witness :
  let inc := <[ "notifications_sent" := VStr "2" ]> scenario_A in
  let ss := set_incidents [scenario_B; inc] initialize_state in
  send_notification_action (VStr "aaaaaaaa") (at_time 12) ss
  = Raise (match inc !! "notifications_sent" with
           | None => KeyError "notifications_sent"
           | Some _ => TypeError
           end).
Proof.
  intros inc ss.
  apply (notify_needs_counter _ _ ss [scenario_B] inc []).
  - reflexivity.
  - repeat constructor. eexists. split; [reflexivity | discriminate].
  - reflexivity.
  - intros n. vm_compute. discriminate.
Defined.

(** ** The incident list *)

(** The sort returns exactly when every incident has a status and a
    timestamp and every two of the keys can be compared. *)
Lemma sorted_incidents_returns (l : list Incident) :
  (∃ l', sorted_incidents l = Ok l')
  ↔ ∃ keyed, mapM (λ x, k ← sort_key x; Ok (k, x)) l = Ok keyed
      ∧ ∀ kx ky, kx ∈ keyed → ky ∈ keyed → comparable kx.1 ky.1.
Proof.
  unfold sorted_incidents. split.
  - intros [l' Hl']. destruct (mapM _ l) as [keyed|]; [|done].
    rewrite bind_Ok in Hl'. exists keyed. split; [done|].
    destruct (sort_desc keyed) as [sorted|] eqn:Hs; [|done].
    intros kx ky. by apply (sort_desc_returns _ _ _ _ Hs).
  - intros (keyed & -> & Hcmp). rewrite bind_Ok.
    destruct (sort_desc_comparable keyed Hcmp) as [sorted ->]. eauto.
Qed.

(** A store of one incident is sorted whatever its timestamp is: there
    is nothing to compare. *)
Lemma sorted_incidents_singleton (x : Incident) :
  is_Some (x !! "status") → is_Some (x !! "timestamp") →
  sorted_incidents [x] = Ok [x].
Proof.
  intros [s Hs] [t Ht]. unfold sorted_incidents, sort_key. simpl.
  known_item Hs. by known_item Ht.
Qed.

(** X17. Whenever the sort of the list panel returns, it returns the
    incidents of the store, each exactly as often as the store holds it:
    the panel drops no incident and shows none twice. *)
Theorem sorted_incidents_permutation (l l' : list Incident) :
  sorted_incidents l = Ok l' →
  l' ≡ₚ l ∧ length l' = length l.
Proof.
  intros [Hperm _]%sorted_incidents_descending.
  split; [done|]. by rewrite Hperm.
Qed.

Lemma sorted_incidents_permutation_witness :
  let odd := <[ "timestamp" := VInt 5 ]> scenario_B in
  [odd; scenario_A; scenario_C] ≡ₚ [scenario_C; odd; scenario_A]
  ∧ length [odd; scenario_A; scenario_C] = length [scenario_C; odd; scenario_A].
Proof.
  intros odd. apply sorted_incidents_permutation. reflexivity.
Defined.

Lemma StronglySorted_lookup_lt {A} (R : relation A) l i j x y :
  StronglySorted R l → l !! i = Some x → l !! j = Some y → (i < j)%nat → R x y.
Proof.
  intros Hl. revert i j. induction Hl as [|z l Hl IH Hz]; intros i j Hi Hj Hij.
  { done. }
  destruct j as [|j]; [lia|]. simpl in Hj. destruct i as [|i]; simpl in Hi.
  - injection Hi as ->. rewrite Forall_forall in Hz.
    apply Hz. by eapply list_elem_of_lookup_2.
  - apply (IH i j); [done|done|lia].
Qed.

(** X18. Among incidents of the same group, New or not New, the panel
    shows the most recent first: if [x] is shown above [y] and both are
    New, or neither is, the timestamp of [x] is not before that of
    [y]. *)
Theorem shown_most_recent_first (l l' : list Incident) i j
    (x y : Incident) sx sy t u :
  sorted_incidents l = Ok l' →
  l' !! i = Some x → l' !! j = Some y → (i < j)%nat →
  x !! "status" = Some sx → y !! "status" = Some sy →
  (sx = VStr "New" ↔ sy = VStr "New") →
  x !! "timestamp" = Some (VTime t) → y !! "timestamp" = Some (VTime u) →
  datetime_lt t u = false.
Proof.
  intros [_ Hsorted]%sorted_incidents_descending Hi Hj Hij Hsx Hsy Hgroup Ht Hu.
  destruct (StronglySorted_lookup_lt _ _ _ _ _ _ Hsorted Hi Hj Hij)
    as (kx & ky & Hkx & Hky & Hlt).
  unfold sort_key, getitem in Hkx, Hky.
  rewrite Hsx, Ht in Hkx. rewrite Hsy, Hu in Hky. simpl in Hkx, Hky.
  injection Hkx as <-. injection Hky as <-.
  rewrite key_lt_value in Hlt. simpl in Hlt.
  rewrite decide_True in Hlt; [by injection Hlt|].
  apply bool_decide_ext. tauto.
Qed.

Lemma shown_most_recent_first_witness :
  datetime_lt (at_time 10) (at_time 9) = false.
Proof.
  apply (shown_most_recent_first [scenario_C; scenario_B; scenario_A]
           [scenario_B; scenario_A; scenario_C] 1 2 scenario_A scenario_C
           (VStr "New") (VStr "New")); try reflexivity; lia || done.
Defined.

Lemma filter_insert_desc {A} k (kx : bool * value * A) l l' :
  insert_desc kx l = Ok l' →
  filter (λ ky, ky.1 = k) l' = filter (λ ky, ky.1 = k) (kx :: l).
Proof.
  revert l'. induction l as [|ky l IH]; intros l'; simpl insert_desc.
  { by intros [= <-]. }
  destruct (key_lt kx.1 ky.1) as [[|]|] eqn:Hlt; simpl; [|by intros [= <-]|done].
  destruct (insert_desc kx l) as [r|]; simpl; [|done]. intros [= <-].
  rewrite (filter_cons _ ky), (IH r eq_refl), !filter_cons.
  destruct (decide (kx.1 = k)) as [Hx|Hx], (decide (ky.1 = k)) as [Hy|Hy]; try done.
  rewrite Hx, Hy, key_lt_irrefl in Hlt. done.
Qed.

Lemma filter_sort_desc {A} k (l l' : list (bool * value * A)) :
  sort_desc l = Ok l' →
  filter (λ ky, ky.1 = k) l' = filter (λ ky, ky.1 = k) l.
Proof.
  revert l'. induction l as [|kx l IH]; intros l'; simpl sort_desc.
  { by intros [= <-]. }
  destruct (sort_desc l) as [r|]; simpl; [|done].
  intros ->%(filter_insert_desc k). by rewrite !filter_cons, (IH r eq_refl).
Qed.

Lemma filter_decorated k (m : list (bool * value * Incident)) :
  Forall (λ kx, sort_key kx.2 = Ok kx.1) m →
  filter (λ x, sort_key x = Ok k) (snd <$> m)
  = snd <$> filter (λ kx, kx.1 = k) m.
Proof.
  induction 1 as [|kx m Hkx _ IH]; [done|].
  rewrite fmap_cons, !filter_cons, IH, Hkx.
  destruct (decide (kx.1 = k)) as [->|Hne].
  - by rewrite decide_True.
  - rewrite decide_False; [done|]. by intros [=].
Qed.

(** X19. The sort is stable: incidents with the same key (the same group
    and the same timestamp) are shown in the order they have in the
    store. *)
Theorem sorted_incidents_stable (l l' : list Incident) k :
  sorted_incidents l = Ok l' →
  filter (λ x, sort_key x = Ok k) l' = filter (λ x, sort_key x = Ok k) l.
Proof.
  unfold sorted_incidents. destruct (mapM _ l) as [keyed|] eqn:Hk; [|done].
  rewrite bind_Ok. destruct (sort_desc keyed) as [sorted|] eqn:Hs; [|done].
  rewrite bind_Ok. intros [= <-].
  destruct (decorate_keys _ _ Hk) as [Hkeys <-].
  rewrite !filter_decorated, (filter_sort_desc _ _ _ Hs); [done|done|].
  by rewrite (sort_desc_perm _ _ Hs).
Qed.

Lemma sorted_incidents_stable_witness :
  let twin := <[ "id" := VStr "dddddddd" ]> scenario_A in
  filter (λ x, sort_key x = Ok (false, VTime (at_time 10)))
    [scenario_B; twin; scenario_A; scenario_C]
  = filter (λ x, sort_key x = Ok (false, VTime (at_time 10)))
      [scenario_C; twin; scenario_B; scenario_A].
Proof.
  intros twin. apply sorted_incidents_stable. reflexivity.
Defined.

Lemma render_cards_click click (l : list Incident) ss :
  Forall tracked l →
  render_cards click l ss
  = Ok (match click ≫= (l !!.) with
        | Some inc => (set_active_incident_id (inc !! "id") ss, true)
        | None => (ss, false)
        end).
Proof.
  intros Hl. revert click. induction Hl as [|inc l Hinc Hl IH]; intros click.
  { by destruct click. }
  simpl render_cards.
  destruct (tracked_type _ Hinc) as [ty Hty].
  destruct (tracked_location _ Hinc) as [loc Hloc].
  destruct (tracked_status _ Hinc) as [s Hs].
  destruct (tracked_id _ Hinc) as [i Hi].
  known_item Hty. known_item Hloc. known_item Hs. known_item Hi.
  destruct click as [[|c]|]; simpl.
  - by rewrite Hi.
  - apply (IH (Some c)).
  - apply (IH None).
Qed.

(** X20. On a store of tracked incidents the list panel never raises: a
    click on the card at position [i] selects the incident the sort put
    at that position and ends the run, and without a click, or with one
    past the last card, the session stays as it is. *)
Theorem card_click_selects click ss :
  Forall tracked (incidents ss) →
  ∃ l, sorted_incidents (incidents ss) = Ok l
    ∧ incident_list_panel click ss
      = Ok (match click ≫= (l !!.) with
            | Some inc => (set_active_incident_id (inc !! "id") ss, true)
            | None => (ss, false)
            end).
Proof.
  intros Htr. destruct (sorted_incidents_tracked _ Htr) as (l & Hl & Hperm).
  exists l. split; [done|]. unfold incident_list_panel. rewrite Hl, bind_Ok.
  apply render_cards_click. by rewrite Hperm.
Qed.

Lemma card_click_selects_witness :
  let a := live_incident oracle_0 in
  let b := <[ "status" := VStr "Resolved" ]>
             (live_incident (mk_oracle 0 "89abcdef" (at_time 11) (at_time 11) None)) in
  let ss := set_incidents [a; b] initialize_state in
  ∃ l, sorted_incidents (incidents ss) = Ok l
    ∧ incident_list_panel (Some 0%nat) ss
      = Ok (match Some 0%nat ≫= (l !!.) with
            | Some inc => (set_active_incident_id (inc !! "id") ss, true)
            | None => (ss, false)
            end).
Proof.
  intros a b ss. apply card_click_selects.
  apply Forall_cons. split; [apply tracked_live_incident|].
  apply Forall_singleton, tracked_set_status, tracked_live_incident.
Defined.

(** ** The detail panel *)

Lemma shown_bind_Shown {A B} (f : A → shown B) (a : A) : (Shown a ≫= f) = f a.
Proof. reflexivity. Qed.

Lemma lift_getitem (d : Incident) k v :
  d !! k = Some v → lift (getitem d k) = Shown v.
Proof. intros H. by rewrite (getitem_Some _ _ _ H). Qed.

(** Read a key whose value a hypothesis gives. *)
Ltac shown_item H := rewrite (lift_getitem _ _ _ H), shown_bind_Shown; cbv beta.

Lemma next_incident_absent incident_id l :
  id_absent incident_id l → next_incident incident_id l = Ok None.
Proof.
  induction 1 as [|inc l (i & Hi & Hne) _ IH]; [done|].
  simpl. known_item Hi. by rewrite decide_False.
Qed.

Lemma next_incident_first incident_id pre (inc : Incident) post :
  id_absent incident_id pre →
  inc !! "id" = Some incident_id →
  next_incident incident_id (pre ++ inc :: post) = Ok (Some inc).
Proof.
  intros Hpre Hid. induction Hpre as [|x pre (i & Hi & Hne) _ IH]; simpl.
  - known_item Hid. by rewrite decide_True.
  - known_item Hi. by rewrite decide_False.
Qed.

(** X21. A selection that names no incident of the store does not last:
    after a status update with an unknown id (which selects that id),
    the detail panel reports that the incident is not found and clears
    the selection, and the session is the one before the update with
    nothing selected. *)
Theorem dangling_selection_cleared incident_id key v ss :
  id_absent incident_id (incidents ss) →
  truthy incident_id = true →
  ∃ ss1, handle_update incident_id key v ss = Ok ss1
    ∧ incident_detail_panel ss1
      = Shown (set_active_incident_id None ss, NotFound).
Proof.
  intros Habs Htruthy. unfold handle_update.
  rewrite (for_first_match_absent _ _ _ Habs), bind_Ok.
  eexists. split; [reflexivity|].
  unfold incident_detail_panel. simpl. rewrite Htruthy. simpl.
  by rewrite (next_incident_absent _ _ Habs).
Qed.

Lemma dangling_selection_cleared_witness :
  let ss := set_incidents [scenario_A; scenario_B] initialize_state in
  ∃ ss1, handle_update (VStr "nonexistent") "status" (VStr "Resolved") ss = Ok ss1
    ∧ incident_detail_panel ss1
      = Shown (set_active_incident_id None ss, NotFound).
Proof.
  apply dangling_selection_cleared; [|reflexivity].
  repeat constructor; eexists; (split; [reflexivity | discriminate]).
Defined.

Lemma index_outside v options :
  (∀ o, o ∈ options → v ≠ VStr o) → index v options = Failed ValueError.
Proof.
  induction options as [|o options IH]; intros Hout; simpl; [done|].
  rewrite decide_False by (apply Hout; left).
  rewrite IH; [done|]. intros o' Ho'. apply Hout. by right.
Qed.

Lemma index_inside s options :
  s ∈ options → ∃ i, index (VStr s) options = Shown i ∧ options !! i = Some s.
Proof.
  induction options as [|o options IH]; [by intros ?%elem_of_nil|].
  intros Hin. simpl. destruct (decide (VStr s = VStr o)) as [[= ->]|Hne].
  - by exists 0%nat.
  - apply elem_of_cons in Hin as [->|Hin]; [done|].
    destruct (IH Hin) as (i & -> & Hi). by exists (S i).
Qed.

(** X22. The status update stores whatever value it is given, and the
    detail panel cannot show a status that is not one of its four
    options: on a selected incident whose status is another value,
    [status_options.index] raises [ValueError]. *)
Theorem detail_panel_rejects_other_status incident_id ss pre
    (inc : Incident) post s :
  incidents ss = pre ++ inc :: post →
  id_absent incident_id pre →
  inc !! "id" = Some incident_id →
  truthy incident_id = true →
  factory_made inc →
  (∀ o, o ∈ status_options → s ≠ VStr o) →
  ∃ ss1, handle_update incident_id "status" s ss = Ok ss1
    ∧ incident_detail_panel ss1 = Failed ValueError.
Proof.
  intros Hss Hpre Hid Htruthy Hmade Hout.
  rewrite (handle_update_sets_and_selects_aux incident_id "status" s ss pre inc post)
    by done.
  eexists. split; [reflexivity|].
  unfold incident_detail_panel. simpl. rewrite Htruthy. simpl.
  rewrite (next_incident_first incident_id pre _ post) by
    (done || by rewrite lookup_insert_ne).
  simpl. rewrite decide_False by apply insert_non_empty.
  destruct Hmade as [(ty & loc & score & Hty & Hloc & Hscore & Hdesc & _) _ _ (t & Ht)].
  set (inc' := <[ "status" := s ]> inc).
  assert (inc' !! "id" = Some incident_id) as Hid'
    by (by unfold inc'; rewrite lookup_insert_ne).
  assert (inc' !! "type" = Some (VStr ty)) as Hty'
    by (by unfold inc'; rewrite lookup_insert_ne).
  assert (inc' !! "location" = Some (VStr loc)) as Hloc'
    by (by unfold inc'; rewrite lookup_insert_ne).
  assert (inc' !! "timestamp" = Some (VTime t)) as Ht'
    by (by unfold inc'; rewrite lookup_insert_ne).
  assert (inc' !! "deescalation_score" = Some (VInt score)) as Hscore'
    by (by unfold inc'; rewrite lookup_insert_ne).
  assert (inc' !! "description" = Some (VStr (description_of ty loc score)))
    as Hdesc' by (by unfold inc'; rewrite lookup_insert_ne).
  assert (inc' !! "status" = Some s) as Hst'
    by (unfold inc'; apply lookup_insert_eq).
  unfold show_incident.
  shown_item Hid'. shown_item Hty'. shown_item Hloc'. shown_item Ht'.
  cbn [strftime_value lift]. rewrite shown_bind_Shown.
  shown_item Hscore'. shown_item Hdesc'. shown_item Hst'.
  by rewrite (index_outside _ _ Hout).
Qed.

Lemma detail_panel_rejects_other_status_witness :
  let ss := set_incidents [live_incident oracle_0] initialize_state in
  ∃ ss1, handle_update (VStr "0123abcd") "status" (VStr "Escalated") ss = Ok ss1
    ∧ incident_detail_panel ss1 = Failed ValueError.
Proof.
  apply (detail_panel_rejects_other_status (VStr "0123abcd") _ []
           (live_incident oracle_0) [] (VStr "Escalated")).
  - reflexivity.
  - constructor.
  - reflexivity.
  - reflexivity.
  - apply newly_logged_made, newly_logged_live.
  - intros o Ho. apply list_elem_of_In in Ho. simpl in Ho.
    destruct Ho as [<-|[<-|[<-|[<-|[]]]]]; discriminate.
Defined.

Lemma last_manual_recipients k :
  last (manual_recipients (S k))
  = Some (if decide (k = 0%nat) then "Admin/Security" else "Parents/Counselors").
Proof.
  destruct k as [|k]; [done|]. unfold manual_recipients.
  change ("Admin/Security" :: replicate (S k) "Parents/Counselors")
    with (["Admin/Security"] ++ replicate (S k) "Parents/Counselors").
  rewrite replicate_S_end, app_assoc, last_snoc. by rewrite decide_False.
Qed.

(** X23. The detail panel on a selected incident the dashboard has
    logged, whose status is one of the four options: it shows the
    incident without raising, lists every entry of the log, one line
    each, and offers the wellness check-in.  The "last sent" caption is
    there exactly when a manual notification has been sent, and it names
    the recipient of the last manual notification ("Admin/Security" after
    one, "Parents/Counselors" after more), never the alert system. *)
Theorem detail_panel_shows_logged ss incident_id pre (inc : Incident) post o :
  active_incident_id ss = Some incident_id →
  truthy incident_id = true →
  incidents ss = pre ++ inc :: post →
  id_absent incident_id pre →
  inc !! "id" = Some incident_id →
  tracked inc → factory_made inc →
  inc !! "status" = Some (VStr o) → o ∈ status_options →
  ∃ view n log,
    incident_detail_panel ss = Shown (ss, Details view)
    ∧ inc !! "notifications_sent" = Some (VInt n)
    ∧ inc !! "notification_log" = Some (VLog log)
    ∧ status_options !! view_status_index view = Some o
    ∧ (view_last_sent view = None ↔ n = 0)
    ∧ (∀ c, view_last_sent view = Some c →
         ∃ tm, c = [Lit "Last sent to ";
                    Lit (if decide (n = 1) then "Admin/Security"
                         else "Parents/Counselors");
                    Lit " at "; Lit tm])
    ∧ view_wellness_button view = true
    ∧ view_log view
      = String.concat newline
          ((λ entry, "**[" +:+ time entry +:+ "]** - Sent to " +:+ recipient entry)
             <$> log).
Proof.
  intros Hact Htruthy Hss Hpre Hid Htr Hmade Hst Ho.
  destruct Hmade as [(ty & loc & score & Hty & Hloc & Hscore & Hdesc & _) Hw _ (t & Ht)].
  destruct (tracked_log _ Htr) as (n & log & Hn & Hpos & Hlog & Hrec).
  destruct (index_inside _ _ Ho) as (ix & Hix & Hopt).
  assert (∃ e, last log = Some e
               ∧ (n ≠ 0 → recipient e = if decide (n = 1) then "Admin/Security"
                                        else "Parents/Counselors"))
    as (e & Hlast & He).
  { destruct (last log) as [e|] eqn:Hl.
    - exists e. split; [done|]. intros Hn0.
      assert (last (recipient <$> log) = Some (recipient e)) as Hlr
        by (by rewrite fmap_last, Hl).
      rewrite Hrec in Hlr. replace (Z.to_nat n) with (S (Z.to_nat (n - 1))) in Hlr by lia.
      change (?x :: manual_recipients (S ?k)) with ([x] ++ manual_recipients (S k)) in Hlr.
      rewrite last_app, last_manual_recipients in Hlr. injection Hlr as <-.
      destruct (decide (n = 1)), (decide (Z.to_nat (n - 1) = 0%nat)); done || lia.
    - apply last_None in Hl. subst log. done. }
  exists {| view_subheader := [Lit "Incident "; Val incident_id; Lit " | "; Val (VStr ty)];
            view_location := VStr loc;
            view_time_detected := strftime_HMS t;
            view_confidence := [Val (VInt score); Lit "%"];
            view_description :=
              [Lit "**AI Description:** *";
               Val (VStr (description_of ty loc score)); Lit "*"];
            view_status_index := ix;
            view_alert_button :=
              [Lit "🔔 Send Tactical Alert ("; Val (VInt n); Lit " Sent)"];
            view_last_sent :=
              if bool_decide (n > 0) then
                Some [Lit "Last sent to "; Lit (recipient e); Lit " at ";
                      Lit (time e)]
              else None;
            view_wellness := [Lit "**Wellness Checks Required:** "; Val (VInt 2)];
            view_wellness_button := true;
            view_log :=
              String.concat newline
                ((λ entry, "**[" +:+ time entry +:+ "]** - Sent to "
                           +:+ recipient entry) <$> log) |}, n, log.
  split.
  { unfold incident_detail_panel. rewrite Hact, Htruthy. cbn [negb].
    rewrite Hss, (next_incident_first _ _ _ _ Hpre Hid). cbn [lift].
    rewrite shown_bind_Shown.
    rewrite decide_False by (intros ->; by rewrite lookup_empty in Hid).
    unfold show_incident.
    rewrite (lift_getitem _ _ _ Hid), (lift_getitem _ _ _ Hty),
      (lift_getitem _ _ _ Hloc), (lift_getitem _ _ _ Ht),
      (lift_getitem _ _ _ Hscore), (lift_getitem _ _ _ Hdesc),
      (lift_getitem _ _ _ Hst), (lift_getitem _ _ _ Hn),
      (lift_getitem _ _ _ Hw), (lift_getitem _ _ _ Hlog).
    cbn [mbind shown_bind strftime_value gt_0 lift log_lines last_entry].
    rewrite Hix. cbn [mbind shown_bind].
    assert (String.concat newline
              ((λ entry, "**[" +:+ time entry +:+ "]** - Sent to "
                         +:+ recipient entry) <$> log) ≠ "") as Htext.
    { destruct log as [|e0 log]; [done|]. rewrite fmap_cons.
      simpl. by destruct (_ <$> log). }
    destruct (bool_decide (n > 0)); cbn [mbind shown_bind last_entry];
      rewrite ?Hlast; cbn [mbind shown_bind];
      by rewrite decide_False. }
  split; [done|]. split; [done|]. split; [done|]. cbn [view_last_sent
    view_wellness_button view_log].
  split; [|split; [|done]].
  - case_bool_decide; split; intros; done || lia.
  - intros c. case_bool_decide; [|done]. intros [= <-].
    exists (time e). by rewrite He by lia.
Qed.

Lemma detail_panel_shows_logged_witness :
  let inc := live_incident oracle_0 in
  let ss := set_active_incident_id (Some (VStr "0123abcd"))
              (set_incidents [inc] initialize_state) in
  ∃ view n log,
    incident_detail_panel ss = Shown (ss, Details view)
    ∧ inc !! "notifications_sent" = Some (VInt n)
    ∧ inc !! "notification_log" = Some (VLog log)
    ∧ status_options !! view_status_index view = Some "New"
    ∧ (view_last_sent view = None ↔ n = 0)
    ∧ (∀ c, view_last_sent view = Some c →
         ∃ tm, c = [Lit "Last sent to ";
                    Lit (if decide (n = 1) then "Admin/Security"
                         else "Parents/Counselors");
                    Lit " at "; Lit tm])
    ∧ view_wellness_button view = true
    ∧ view_log view
      = String.concat newline
          ((λ entry, "**[" +:+ time entry +:+ "]** - Sent to " +:+ recipient entry)
             <$> log).
Proof.
  intros inc ss.
  apply (detail_panel_shows_logged ss (VStr "0123abcd") [] inc [] "New").
  - reflexivity.
  - reflexivity.
  - reflexivity.
  - constructor.
  - reflexivity.
  - apply tracked_live_incident.
  - apply newly_logged_made, newly_logged_live.
  - reflexivity.
  - by left.
Defined.

(** ** The file analysis panel *)

Lemma split_slash_0_major major minor :
  split_slash_0 major = major →
  split_slash_0 (major +:+ "/" +:+ minor) = major.
Proof.
  induction major as [|c major IH]; simpl; [done|].
  destruct (decide (String c "" = "/")); [done|].
  intros [= Hmajor]. by rewrite IH.
Qed.

(** X24. The file panel looks at the MIME type up to its first slash and
    at nothing after it: a file of type major/minor goes to the image
    analysis when the major type is "image", to the video analysis when
    it is "video", and otherwise only draws a warning and leaves the
    session as it is. *)
Theorem file_type_dispatch name major minor b o ss :
  split_slash_0 major = major →
  file_analysis_panel (Some (mk_uploaded name (major +:+ "/" +:+ minor) b)) o ss
  = if decide (major = "image") then process_uploaded_image name b o ss
    else if decide (major = "video") then process_uploaded_video name b o ss
    else Ok (ss, [st_warning [Lit "Unsupported file type detected."]], false).
Proof.
  intros Hmajor. unfold file_analysis_panel. cbn [file_type file_name button].
  by rewrite (split_slash_0_major _ _ Hmajor).
Qed.

Lemma file_type_dispatch_witness :
  file_analysis_panel
    (Some (mk_uploaded "notes.pdf" ("application" +:+ "/" +:+ "pdf") true))
    oracle_0 initialize_state
  = if decide ("application" = "image") then
      process_uploaded_image "notes.pdf" true oracle_0 initialize_state
    else if decide ("application" = "video") then
      process_uploaded_video "notes.pdf" true oracle_0 initialize_state
    else Ok (initialize_state,
             [st_warning [Lit "Unsupported file type detected."]], false).
Proof.
  apply file_type_dispatch. reflexivity.
Defined.

(** ** The proactive panel *)

(** X25. The proactive panel shows one card per risk zone, in order.  A
    zone gets "Deploy staff immediately", in red, exactly when its score
    is above 90; a score of 90 or less gets "Increase casual presence",
    in amber.  The delta colour is inverse exactly for the trend "up". *)
Theorem proactive_panel_cards ss :
  length (proactive_panel ss) = length (risk_zones ss)
  ∧ ∀ i zone, risk_zones ss !! i = Some zone →
      ∃ card, proactive_panel ss !! i = Some card
        ∧ card_location card = zone_location zone
        ∧ (card_action card = "Deploy staff immediately" ↔ zone_score zone > 90)
        ∧ (card_action card = "Increase casual presence" ↔ zone_score zone ≤ 90)
        ∧ (card_style card = "color: #DC2626;" ↔ zone_score zone > 90)
        ∧ (card_style card = "color: #F59E0B;" ↔ zone_score zone ≤ 90)
        ∧ (card_delta_color card = "inverse" ↔ zone_trend zone = "up").
Proof.
  unfold proactive_panel. split; [apply length_fmap|].
  intros i zone Hz. exists (zone_card_of zone).
  split; [by rewrite list_lookup_fmap, Hz|]. split; [done|].
  unfold zone_card_of. simpl.
  repeat split; repeat case_decide; intros; done || lia.
Qed.

(** * Detection sessions *)







